(** * new-erc20-parser: the chain listener, the API poller and the address files

    A shallow embedding of [index.js].  The program keeps two files in its
    [parser/] folder, [addresses.json] (a list of [{address, method}]
    objects, newest first) and [addresses.txt] (one address per line), reads
    the allowed method signatures from [methods.json], and posts messages to
    a Telegram channel.  Two callbacks touch these files: the handler of the
    ['block'] subscription installed by [listenForTransactions], and
    [fetchAndSaveAddresses], run once at start-up and then every five
    seconds.

    The embedding threads a [World] (the three files and the log of what was
    done to them and to the bot) through the code.  What the network
    answers ([getBlock], [getTransaction], [axios.get], whether the promise
    of [bot.sendMessage] resolves) is an input of each step.  File system
    failures are outside the model: a read gives the file's content and a
    write succeeds. *)

From Stdlib Require Import List String Ascii Bool Arith ZArith Lia Permutation.
Import ListNotations.
Local Open Scope list_scope.
Local Open Scope string_scope.

(** ** The JavaScript primitives the program uses *)

Module JS.

(** The character of ["\n"]. *)
Definition LF : ascii := ascii_of_nat 10.

Definition newline : string := String LF EmptyString.

(** [s.slice(0, n)]: the first [n] characters, all of [s] when it is
    shorter. *)
Definition slice0 (n : nat) (s : string) : string := substring 0 n s.

(** [s.toLowerCase()] on the ASCII letters (addresses are hexadecimal). *)
Definition lowerChar (c : ascii) : ascii :=
  let n := nat_of_ascii c in
  if ((65 <=? n)%nat && (n <=? 90)%nat)%bool then ascii_of_nat (n + 32) else c.

Fixpoint toLowerCase (s : string) : string :=
  match s with
  | EmptyString => EmptyString
  | String c rest => String (lowerChar c) (toLowerCase rest)
  end.

(** [array.includes(x)] on an array of strings ([===] on strings). *)
Definition includes (array : list string) (x : string) : bool :=
  existsb (fun y => String.eqb y x) array.

(** [array.join(sep)] *)
Fixpoint join (sep : string) (array : list string) : string :=
  match array with
  | [] => ""
  | [x] => x
  | x :: rest => x ++ sep ++ join sep rest
  end.

(** A value inside a template literal: [null] prints as ["null"]. *)
Definition template (v : option string) : string :=
  match v with
  | Some s => s
  | None => "null"
  end.

(** Truthiness of a string-or-missing value: [""] stands for every falsy
    value ([undefined], [null], the empty string). *)
Definition truthy (s : string) : bool := negb (String.eqb s "").

End JS.

(** ** Data *)

(** An element of [addresses.json]: [{ address, method }].  [method] is
    [null] when [extractMethod] found nothing. *)
Record Entry : Type := mkEntry {
  address : string;
  method : option string
}.

(** What the program reads of an ethers transaction.  [from] is the sender
    as the provider delivers it, an address in its checksummed spelling. *)
Record Transaction : Type := mkTransaction {
  data : string;
  nonce : Z;
  from : string
}.

(** What the program reads of an element of the API's [data] array.  A
    missing [address] is [""]; a missing [name] is any string other than
    ["Uniswap V2"]. *)
Record Item : Type := mkItem {
  item_address : string;
  item_name : string;
  creating_transaction_hash : string
}.

(** The outcome of [axios.get(apiUrl)]. *)
Inductive ApiReply : Type :=
| ReplyData (items : list Item)   (* [response.data.data] is an array *)
| ReplyInvalid                    (* any other body: 'Invalid data format.' *)
| ReplyError.                     (* the request rejects: caught and logged *)

(** The outcome of [rpcProvider.getTransaction(hash)]. *)
Inductive TxLookup : Type :=
| TxFound (t : Transaction)
| TxNull
| TxThrows.

(** What the program does to the outside, in the order it does it. *)
Inductive Event : Type :=
| ReadJSON                         (* [existsSync]/[readFileSync] of addresses.json *)
| WriteJSON (entries : list Entry) (* [writeFileSync(outputJSON, ...)] *)
| WriteTXT (content : string)      (* [writeFileSync(outputTXT, ...)] *)
| SendMessage (text : string).     (* [bot.sendMessage(channelId, text)] is called *)

(** The files and the log, oldest event first.  A file that does not exist
    is [None].  [addresses.json] is kept parsed: [JSON.stringify] followed
    by [JSON.parse] gives back the same list of entries. *)
Record World : Type := mkWorld {
  methodsJSON : list string;
  outputJSON : option (list Entry);
  outputTXT : option string;
  events : list Event
}.

(** How a piece of asynchronous code ends: normally, or with an exception
    that leaves the callback.  Either way the world is what the code made of
    it so far. *)
Inductive Completion : Type :=
| Returned (w : World)
| Thrown (w : World).

Definition worldOf (c : Completion) : World :=
  match c with
  | Returned w => w
  | Thrown w => w
  end.

(** ** File and bot operations *)

Definition logEvent (e : Event) (w : World) : World :=
  mkWorld (methodsJSON w) (outputJSON w) (outputTXT w) (events w ++ [e])%list.

(** [fs.existsSync(outputJSON) ? JSON.parse(fs.readFileSync(outputJSON)) : []] *)
Definition readOutputJSON (w : World) : list Entry :=
  match outputJSON w with
  | Some entries => entries
  | None => []
  end.

(** [fs.writeFileSync(outputJSON, JSON.stringify(entries, null, 2))] *)
Definition writeOutputJSON (entries : list Entry) (w : World) : World :=
  mkWorld (methodsJSON w) (Some entries) (outputTXT w)
          (events w ++ [WriteJSON entries])%list.

(** [fs.writeFileSync(outputTXT, content)] *)
Definition writeOutputTXT (content : string) (w : World) : World :=
  mkWorld (methodsJSON w) (outputJSON w) (Some content)
          (events w ++ [WriteTXT content])%list.

(** [existing.some(e => e.address === a)] *)
Definition someAddress (existing : list Entry) (a : string) : bool :=
  existsb (fun e => String.eqb (address e) a) existing.

(** The text both paths send: [`${address}\n${method}`]. *)
Definition messageOf (e : Entry) : string :=
  address e ++ JS.newline ++ JS.template (method e).

(** ** The chain listener: [listenForTransactions] *)

Section Listener.

(** [ethers.getCreateAddress({ from, nonce })]: the library's derivation of
    the address a deployment gets from its sender and nonce, in the
    mixed-case form the library returns. *)
Variable getCreateAddress : string -> Z -> string.

(** Whether the promise of [bot.sendMessage(channelId, text)] resolves. *)
Variable sendResolves : string -> bool.

(** [await bot.sendMessage(channelId, message)] (line 66): the call is
    made; a rejection leaves the handler as an exception. *)
Definition sendMessage (message : string) (w : World) : Completion :=
  let w1 := logEvent (SendMessage message) w in
  if sendResolves message then Returned w1 else Thrown w1.

(** Lines 74-86: read the existing data, and when no element has the
    address, [unshift] the new element and write the file back.  No [await]
    stands between the read and the write. *)
Definition saveTransactionData (transactionData : Entry) (w : World) : World :=
  let existingData := readOutputJSON w in
  let w1 := logEvent ReadJSON w in
  if negb (someAddress existingData (address transactionData)) then
    writeOutputJSON (transactionData :: existingData) w1
  else w1.

(** Lines 51-88: the body of the loop for one fetched transaction. *)
Definition processTransaction (allowedMethods : list string)
    (transaction : Transaction) (w : World) : Completion :=
  let inputData := data transaction in
  let methodSignature := JS.slice0 10 inputData in
  let contractAddress :=
    JS.toLowerCase (getCreateAddress (from transaction) (nonce transaction)) in
  if JS.includes allowedMethods methodSignature then
    let message := contractAddress ++ JS.newline ++ methodSignature in
    match sendMessage message w with
    | Returned w1 =>
        let transactionData := mkEntry contractAddress (Some methodSignature) in
        Returned (saveTransactionData transactionData w1)
    | Thrown w1 => Thrown w1
    end
  else Returned w.

(** Lines 48-89: the loop over [block.transactions].  Each element is what
    [getTransaction] gave for the hash, [None] for [null]; an exception ends
    the loop. *)
Fixpoint forTransactions (allowedMethods : list string)
    (transactions : list (option Transaction)) (w : World) : Completion :=
  match transactions with
  | [] => Returned w
  | None :: rest => forTransactions allowedMethods rest w
  | Some transaction :: rest =>
      match processTransaction allowedMethods transaction w with
      | Returned w1 => forTransactions allowedMethods rest w1
      | Thrown w1 => Thrown w1
      end
  end.

(** Lines 40-91: the ['block'] handler.  [methods.json] is read once, when
    the handler starts; [block] is what [getBlock] gave, [None] for [null]. *)
Definition blockHandler (block : option (list (option Transaction)))
    (w : World) : Completion :=
  let allowedMethods := methodsJSON w in
  match block with
  | Some transactions => forTransactions allowedMethods transactions w
  | None => Returned w
  end.

(** The element the listener builds for a transaction (lines 69-72). *)
Definition transactionDataOf (transaction : Transaction) : Entry :=
  mkEntry (JS.toLowerCase (getCreateAddress (from transaction) (nonce transaction)))
          (Some (JS.slice0 10 (data transaction))).

End Listener.

(** ** The API poller: [fetchAndSaveAddresses] *)

(** Lines 168-182.  [getTransaction] is what the RPC node answers. *)
Definition extractMethod (getTransaction : string -> TxLookup)
    (transactionHash : string) : option string :=
  match getTransaction transactionHash with
  | TxFound transaction => Some (JS.slice0 10 (data transaction))
  | TxNull => None
  | TxThrows => None
  end.

(** Line 103: the filter on the API's records. *)
Definition keepsItem (item : Item) : bool :=
  JS.truthy (item_address item) && negb (String.eqb (item_name item) "Uniswap V2").

(** Lines 102-110: [newAddresses], in the order of the response. *)
Definition newAddressesOf (getTransaction : string -> TxLookup)
    (items : list Item) : list Entry :=
  map (fun item =>
         mkEntry (JS.toLowerCase (item_address item))
                 (extractMethod getTransaction (creating_transaction_hash item)))
      (filter keepsItem items).

(** Line 118: [uniqueNewAddresses]. *)
Definition uniqueNewAddressesOf (existingAddresses newAddresses : list Entry)
    : list Entry :=
  filter (fun a => negb (someAddress existingAddresses (address a))) newAddresses.

(** Lines 124-129: [forEach] calls [bot.sendMessage] for each element, in
    order, before the code below the loop runs; what becomes of the promises
    does not reach this function. *)
Definition sendAll (entries : list Entry) (w : World) : World :=
  fold_left (fun w1 a => logEvent (SendMessage (messageOf a)) w1) entries w.

(** Lines 112-148: everything after [await Promise.all(...)], which runs
    without a further [await]. *)
Definition saveAddresses (newAddresses : list Entry) (w : World) : World :=
  let existingAddresses := readOutputJSON w in
  let w1 := logEvent ReadJSON w in
  let uniqueNewAddresses := uniqueNewAddressesOf existingAddresses newAddresses in
  let mergedAddresses := (uniqueNewAddresses ++ existingAddresses)%list in
  let w2 := sendAll uniqueNewAddresses w1 in
  let w3 := writeOutputJSON mergedAddresses w2 in
  if (0 <? List.length uniqueNewAddresses)%nat then
    let addressesToWrite := map address uniqueNewAddresses in
    match outputTXT w3 with
    | Some existingTxtContent =>
        let newTxtContent :=
          JS.join JS.newline addressesToWrite ++ JS.newline ++ existingTxtContent in
        writeOutputTXT newTxtContent w3
    | None =>
        writeOutputTXT (JS.join JS.newline addressesToWrite ++ JS.newline) w3
    end
  else w3.

(** Lines 95-165: one run of the poller on the API's reply. *)
Definition fetchAndSaveAddresses (reply : ApiReply)
    (getTransaction : string -> TxLookup) (w : World) : World :=
  match reply with
  | ReplyData items => saveAddresses (newAddressesOf getTransaction items) w
  | ReplyInvalid => w
  | ReplyError => w
  end.

(** ** What an observer sees of a world *)

(** The addresses of the structured list, in file order. *)
Definition jsonAddresses (w : World) : list string :=
  map address (readOutputJSON w).

(** The content of [addresses.txt], empty when the file is missing. *)
Definition txtContent (w : World) : string :=
  match outputTXT w with
  | Some content => content
  | None => ""
  end.

(** The non-empty lines of a text, [line] being the line read so far. *)
Fixpoint linesFrom (line : string) (text : string) : list string :=
  match text with
  | EmptyString => if String.eqb line "" then [] else [line]
  | String c rest =>
      if Ascii.eqb c JS.LF then
        if String.eqb line "" then linesFrom "" rest
        else line :: linesFrom "" rest
      else linesFrom (line ++ String c EmptyString) rest
  end.

(** The addresses of the plain mirror, in file order. *)
Definition txtAddresses (w : World) : list string :=
  linesFrom "" (txtContent w).

(** Two lists hold the same set of strings. *)
Definition sameSet (l1 l2 : list string) : bool :=
  forallb (JS.includes l2) l1 && forallb (JS.includes l1) l2.

(** The texts given to [bot.sendMessage], oldest first. *)
Fixpoint notificationsOf (history : list Event) : list string :=
  match history with
  | [] => []
  | SendMessage text :: rest => text :: notificationsOf rest
  | _ :: rest => notificationsOf rest
  end.

Definition notifications (w : World) : list string :=
  notificationsOf (events w).

(** The reads and writes of [addresses.json] in a history. *)
Fixpoint registryAccesses (history : list Event) : list Event :=
  match history with
  | [] => []
  | ReadJSON :: rest => ReadJSON :: registryAccesses rest
  | WriteJSON entries :: rest => WriteJSON entries :: registryAccesses rest
  | _ :: rest => registryAccesses rest
  end.


(** A string that is one line of the mirror: not empty, no line feed. *)
Fixpoint noLF (s : string) : bool :=
  match s with
  | EmptyString => true
  | String c rest => negb (Ascii.eqb c JS.LF) && noLF rest
  end.

Definition isLine (s : string) : bool := negb (String.eqb s "") && noLF s.

(** No address occurs twice in the structured list. *)
Definition addressesUnique (w : World) : Prop := NoDup (jsonAddresses w).

(** The messages of a list of entries, as events. *)
Definition sendEvents (entries : list Entry) : list Event :=
  map (fun a => SendMessage (messageOf a)) entries.

(** What the poller writes in front of the plain mirror. *)
Definition txtPrefix (uniqueNewAddresses : list Entry) : string :=
  match uniqueNewAddresses with
  | [] => ""
  | _ :: _ => JS.join JS.newline (map address uniqueNewAddresses) ++ JS.newline
  end.

(** The events of the poller's write to the plain mirror. *)
Definition txtEvents (uniqueNewAddresses : list Entry) (old : string) : list Event :=
  match uniqueNewAddresses with
  | [] => []
  | _ :: _ => [WriteTXT (txtPrefix uniqueNewAddresses ++ old)]
  end.

(** The elements one transaction of the listener puts in front of the
    structured list: its element when the method is allowed, the message was
    sent and the address is not yet there, nothing otherwise. *)
Definition admittedByListener (getCreateAddress : string -> Z -> string)
    (sendResolves : string -> bool) (allowedMethods : list string)
    (transaction : Transaction) (w : World) : list Entry :=
  let transactionData := transactionDataOf getCreateAddress transaction in
  if JS.includes allowedMethods (JS.slice0 10 (data transaction))
     && sendResolves (messageOf transactionData)
     && negb (someAddress (readOutputJSON w) (address transactionData))
  then [transactionData] else [].

(** The elements one run of the poller puts in front of the structured
    list. *)
Definition admittedByPoller (reply : ApiReply)
    (getTransaction : string -> TxLookup) (w : World) : list Entry :=
  match reply with
  | ReplyData items =>
      uniqueNewAddressesOf (readOutputJSON w) (newAddressesOf getTransaction items)
  | ReplyInvalid => []
  | ReplyError => []
  end.

(** ** Callbacks that overlap

    Node runs one callback at a time and leaves it only at an [await].  A
    callback is therefore a sequence of phases, each run as a whole.  The
    loop body of the listener has one [await] once the transaction is
    fetched, at [bot.sendMessage], and none after it; the poller has none
    after [Promise.all]. *)

Definition Phase : Type := World -> World.

Definition runPhases (phases : list Phase) (w : World) : World :=
  fold_left (fun w1 phase => phase w1) phases w.

(** All the orders in which the phases of two callbacks can run, each
    callback's own phases staying in order. *)
Fixpoint interleavings {A : Type} (l r : list A) : list (list A) :=
  match l with
  | [] => [r]
  | x :: l' =>
      (fix against (r1 : list A) : list (list A) :=
         match r1 with
         | [] => [l]
         | y :: r' =>
             (map (cons x) (interleavings l' r1) ++ map (cons y) (against r'))%list
         end) r
  end.

(** A callback at work on the registry: the listener on one fetched
    transaction, with the allowed methods its block handler read, or the
    poller on the candidates of one response. *)
Inductive Callback : Type :=
| ListenerCallback (allowedMethods : list string) (transaction : Transaction)
| PollerCallback (newAddresses : list Entry).

Section Callbacks.

Variable getCreateAddress : string -> Z -> string.
Variable sendResolves : string -> bool.

(** [processTransaction] cut at its [await]: the call of [bot.sendMessage],
    then, when the promise resolves, lines 69-86. *)
Definition listenerPhases (allowedMethods : list string)
    (transaction : Transaction) : list Phase :=
  let transactionData := transactionDataOf getCreateAddress transaction in
  if JS.includes allowedMethods (JS.slice0 10 (data transaction)) then
    if sendResolves (messageOf transactionData) then
      [logEvent (SendMessage (messageOf transactionData));
       saveTransactionData transactionData]
    else [logEvent (SendMessage (messageOf transactionData))]
  else [].

Definition phasesOf (t : Callback) : list Phase :=
  match t with
  | ListenerCallback allowedMethods transaction =>
      listenerPhases allowedMethods transaction
  | PollerCallback newAddresses => [saveAddresses newAddresses]
  end.

(** The entries a callback offers to the registry, when it gets that far. *)
Definition candidatesOf (t : Callback) : list Entry :=
  match t with
  | ListenerCallback allowedMethods transaction =>
      if JS.includes allowedMethods (JS.slice0 10 (data transaction))
         && sendResolves (messageOf (transactionDataOf getCreateAddress transaction))
      then [transactionDataOf getCreateAddress transaction] else []
  | PollerCallback newAddresses => newAddresses
  end.

End Callbacks.

(** ** What one callback alone does to a registry

    The next definitions say what a callback does when it finds the list
    [existing] in [addresses.json]; a run of two overlapping callbacks is
    compared with them. *)

(** The accesses of lines 74-86 to [addresses.json]: the read, and the
    write when the address is new. *)
Definition listenerAccesses (existing : list Entry) (transactionData : Entry)
    : list Event :=
  ReadJSON
  :: (if someAddress existing (address transactionData) then []
      else [WriteJSON (transactionData :: existing)]).

(** The entries the callback puts in front of the list. *)
Definition admittedBy (getCreateAddress : string -> Z -> string)
    (sendResolves : string -> bool) (existing : list Entry) (t : Callback)
    : list Entry :=
  uniqueNewAddressesOf existing (candidatesOf getCreateAddress sendResolves t).

(** The entries whose addresses the callback puts in front of the plain
    mirror: none for the listener. *)
Definition mirroredBy (existing : list Entry) (t : Callback) : list Entry :=
  match t with
  | ListenerCallback _ _ => []
  | PollerCallback newAddresses => uniqueNewAddressesOf existing newAddresses
  end.

(** The texts the callback gives to [bot.sendMessage]: the listener's one,
    as soon as the method is allowed; the poller's, one for each new
    entry. *)
Definition messagesOf (getCreateAddress : string -> Z -> string)
    (existing : list Entry) (t : Callback) : list string :=
  match t with
  | ListenerCallback allowedMethods transaction =>
      if JS.includes allowedMethods (JS.slice0 10 (data transaction))
      then [messageOf (transactionDataOf getCreateAddress transaction)] else []
  | PollerCallback newAddresses =>
      map messageOf (uniqueNewAddressesOf existing newAddresses)
  end.

(** The reads and writes of [addresses.json] by the callback. *)
Definition accessesOf (getCreateAddress : string -> Z -> string)
    (sendResolves : string -> bool) (existing : list Entry) (t : Callback)
    : list Event :=
  match t with
  | ListenerCallback allowedMethods transaction =>
      if JS.includes allowedMethods (JS.slice0 10 (data transaction))
         && sendResolves (messageOf (transactionDataOf getCreateAddress transaction))
      then listenerAccesses existing (transactionDataOf getCreateAddress transaction)
      else []
  | PollerCallback newAddresses =>
      [ReadJSON;
       WriteJSON (uniqueNewAddressesOf existing newAddresses ++ existing)%list]
  end.

(** No send of the callback that matters to it is rejected: for the
    listener, the method is not allowed or the send resolves. *)
Definition sendsResolve (getCreateAddress : string -> Z -> string)
    (sendResolves : string -> bool) (t : Callback) : bool :=
  match t with
  | ListenerCallback allowedMethods transaction =>
      negb (JS.includes allowedMethods (JS.slice0 10 (data transaction)))
      || sendResolves (messageOf (transactionDataOf getCreateAddress transaction))
  | PollerCallback _ => true
  end.

(** [w1] is what the two callbacks make of [w] when [first] does its read
    and write of [addresses.json] before [second] does: the list, the plain
    mirror and the accesses to the file are those of [first] on the list of
    [w] followed by those of [second] on the list [first] left, and the
    messages are theirs, in some order. *)
Definition ranInOrder (getCreateAddress : string -> Z -> string)
    (sendResolves : string -> bool) (first second : Callback) (w w1 : World)
    : Prop :=
  let old := readOutputJSON w in
  let fresh1 := admittedBy getCreateAddress sendResolves old first in
  let between := (fresh1 ++ old)%list in
  let fresh2 := admittedBy getCreateAddress sendResolves between second in
  readOutputJSON w1 = (fresh2 ++ fresh1 ++ old)%list
  /\ txtContent w1
     = txtPrefix (mirroredBy between second)
       ++ txtPrefix (mirroredBy old first) ++ txtContent w
  /\ registryAccesses (events w1)
     = (registryAccesses (events w)
          ++ accessesOf getCreateAddress sendResolves old first
          ++ accessesOf getCreateAddress sendResolves between second)%list
  /\ Permutation (notifications w1)
       (notifications w ++ messagesOf getCreateAddress old first
          ++ messagesOf getCreateAddress between second)%list.

(** ** Sample data for the examples *)

(** A table standing in for [ethers.getCreateAddress] in the examples: the
    addresses of the first four deployments of one sender, as the library
    spells them; outside the table, the zero address. *)
Definition sampleCreateAddress (sender : string) (n : Z) : string :=
  if String.eqb sender "0x6AC7EA33F8831EA9dcC53393aAA88B25A785DBF0" then
    if (n =? 0)%Z then "0xcd234A471b72ba2F1Ccf0A70FCABA648a5eeCD8d"
    else if (n =? 1)%Z then "0x343c43A37D37dfF08AE8C4A11544c718AbB4fCF8"
    else if (n =? 2)%Z then "0xf778B86FA74E846c4f0a1fBd1335FE81c00a0C91"
    else if (n =? 3)%Z then "0xffFd933A0bC612844eaF0C6Fe3E5b8E9B6C1d19c"
    else "0x0000000000000000000000000000000000000000"
  else "0x0000000000000000000000000000000000000000".

(** A bot whose every send resolves. *)
Definition alwaysResolves (text : string) : bool := true.

(** No address file yet; one allowed method. *)
Definition emptyWorld : World := mkWorld ["0x60806040"] None None [].

(** The sender of the examples, in its checksummed spelling. *)
Definition sampleSender : string := "0x6AC7EA33F8831EA9dcC53393aAA88B25A785DBF0".

Definition deployTx : Transaction :=
  mkTransaction "0x60806040523480156100105760" 3 sampleSender.

Definition shortTx : Transaction := mkTransaction "0x6080" 0 sampleSender.

Definition tokenItem : Item :=
  mkItem "0xFFfd933a0Bc612844EAF0c6fE3e5B8e9b6c1D19C" "Token" "0xaa01".

Definition tokenItemAgain : Item :=
  mkItem "0xfffd933a0bc612844eaf0c6fe3e5b8e9b6c1d19c" "Token" "0xaa01".

Definition otherItem : Item :=
  mkItem "0xCD234a471B72BA2f1cCF0a70fcABA648A5EEcd8D" "Other" "0xaa02".

(** The RPC node of the examples: one known transaction, whose input starts
    with a selector that is not in [methods.json]. *)
Definition sampleRpc (transactionHash : string) : TxLookup :=
  if String.eqb transactionHash "0xaa01"
  then TxFound (mkTransaction "0xa9059cbb0000000000" 7 sampleSender)
  else if String.eqb transactionHash "0xaa02" then TxNull
  else TxThrows.

(** ** Any number of overlapping callbacks *)

(** [Merged ls s]: the sequence [s] takes the elements of the lists [ls] in
    some order that keeps the order inside each list.  With the phases of
    several callbacks for [ls], these are the orders in which Node can run
    them. *)
Inductive Merged {A : Type} : list (list A) -> list A -> Prop :=
| merged_nil (ls : list (list A)) :
    Forall (fun l => l = []) ls -> Merged ls []
| merged_cons (pre post : list (list A)) (x : A) (l s : list A) :
    Merged (pre ++ l :: post)%list s ->
    Merged (pre ++ (x :: l) :: post)%list (x :: s).

(** Every address of the structured list is in lower case. *)
Definition addressesLowercase (w : World) : Prop :=
  Forall (fun a => JS.toLowerCase a = a) (jsonAddresses w).

(** ** More sample data *)

(** A bot whose every send is rejected. *)
Definition neverResolves (text : string) : bool := false.

(** A record of the kind the poller leaves out. *)
Definition pairItem : Item :=
  mkItem "0x343C43a37d37DFf08ae8c4a11544C718abb4FCf8" "Uniswap V2" "0xaa03".

(** A world whose two address files list one contract. *)
Definition listedWorld : World :=
  mkWorld ["0x60806040"]
          (Some [mkEntry "0xcd234a471b72ba2f1ccf0a70fcaba648a5eecd8d" None])
          (Some ("0xcd234a471b72ba2f1ccf0a70fcaba648a5eecd8d" ++ JS.newline))
          [].

(** * Properties *)

(** ** Strings and arrays *)

Lemma append_assoc (a b c : string) : (a ++ b) ++ c = a ++ b ++ c.
Proof.
  induction a as [|ch a IH]; simpl; [reflexivity | now rewrite IH].
Qed.

Lemma append_nil_r (a : string) : a ++ "" = a.
Proof.
  induction a as [|ch a IH]; simpl; [reflexivity | now rewrite IH].
Qed.

Lemma slice0_short (n : nat) (s : string) :
  (String.length s <= n)%nat -> JS.slice0 n s = s.
Proof.
  unfold JS.slice0. revert n.
  induction s as [|ch s IH]; intros [|n] H; simpl in *; try reflexivity; try lia.
  f_equal. apply IH. lia.
Qed.

Lemma includes_true (array : list string) (x : string) :
  JS.includes array x = true <-> In x array.
Proof.
  unfold JS.includes. rewrite existsb_exists. split.
  - intros [y [Hy E]]. apply String.eqb_eq in E. now subst.
  - intros H. exists x. split; [assumption | apply String.eqb_refl].
Qed.

Lemma includes_false (array : list string) (x : string) :
  JS.includes array x = false <-> ~ In x array.
Proof.
  rewrite <- includes_true. destruct (JS.includes array x); split; congruence.
Qed.

Lemma someAddress_true (existing : list Entry) (a : string) :
  someAddress existing a = true <-> In a (map address existing).
Proof.
  unfold someAddress. rewrite existsb_exists, in_map_iff. split.
  - intros [e [He E]]. apply String.eqb_eq in E. now exists e.
  - intros [e [E He]]. exists e. split; [assumption|].
    rewrite E. apply String.eqb_refl.
Qed.

Lemma someAddress_false (existing : list Entry) (a : string) :
  someAddress existing a = false <-> ~ In a (map address existing).
Proof.
  rewrite <- someAddress_true. destruct (someAddress existing a); split; congruence.
Qed.

Lemma someAddress_cons (e : Entry) (existing : list Entry) (a : string) :
  someAddress (e :: existing) a
  = (String.eqb (address e) a || someAddress existing a)%bool.
Proof. reflexivity. Qed.

Lemma someAddress_other (c d : Entry) (existing : list Entry) :
  address d <> address c ->
  someAddress existing (address c) = false ->
  someAddress (d :: existing) (address c) = false.
Proof.
  intros Hne H. rewrite someAddress_cons, H.
  apply String.eqb_neq in Hne. now rewrite Hne.
Qed.

(** ** Histories *)

Lemma notificationsOf_app (h1 h2 : list Event) :
  notificationsOf (h1 ++ h2)%list = (notificationsOf h1 ++ notificationsOf h2)%list.
Proof.
  induction h1 as [|[| | |text] h1 IH]; simpl; try assumption.
  - reflexivity.
  - now rewrite IH.
Qed.

Lemma registryAccesses_app (h1 h2 : list Event) :
  registryAccesses (h1 ++ h2)%list
  = (registryAccesses h1 ++ registryAccesses h2)%list.
Proof.
  induction h1 as [|[|entries| |] h1 IH]; simpl; try assumption.
  - reflexivity.
  - now rewrite IH.
  - now rewrite IH.
Qed.

Lemma notificationsOf_sendEvents (entries : list Entry) :
  notificationsOf (sendEvents entries) = map messageOf entries.
Proof.
  induction entries as [|a entries IH]; simpl; [reflexivity | now rewrite IH].
Qed.

Lemma registryAccesses_sendEvents (entries : list Entry) :
  registryAccesses (sendEvents entries) = [].
Proof.
  induction entries as [|a entries IH]; simpl; [reflexivity | assumption].
Qed.

Lemma readOutputJSON_logEvent (e : Event) (w : World) :
  readOutputJSON (logEvent e w) = readOutputJSON w.
Proof. reflexivity. Qed.

Lemma events_logEvent (e : Event) (w : World) :
  events (logEvent e w) = (events w ++ [e])%list.
Proof. reflexivity. Qed.

(** ** The poller in closed form *)

Lemma sendAll_spec (entries : list Entry) (w : World) :
  sendAll entries w =
  mkWorld (methodsJSON w) (outputJSON w) (outputTXT w)
          (events w ++ sendEvents entries)%list.
Proof.
  unfold sendAll. revert w.
  induction entries as [|a entries IH]; intros w; simpl.
  - rewrite app_nil_r. now destruct w.
  - rewrite IH. unfold logEvent; simpl. now rewrite <- app_assoc.
Qed.

Lemma saveAddresses_spec (newAddresses : list Entry) (w : World) :
  let uniqueNewAddresses := uniqueNewAddressesOf (readOutputJSON w) newAddresses in
  saveAddresses newAddresses w =
  mkWorld (methodsJSON w)
          (Some (uniqueNewAddresses ++ readOutputJSON w)%list)
          (match uniqueNewAddresses with
           | [] => outputTXT w
           | _ :: _ => Some (txtPrefix uniqueNewAddresses ++ txtContent w)
           end)
          (events w ++ ReadJSON :: sendEvents uniqueNewAddresses
             ++ WriteJSON (uniqueNewAddresses ++ readOutputJSON w)
             :: txtEvents uniqueNewAddresses (txtContent w))%list.
Proof.
  intros uniqueNewAddresses. destruct w as [m j t ev].
  unfold saveAddresses. fold uniqueNewAddresses. rewrite sendAll_spec.
  unfold txtContent, txtEvents, txtPrefix, writeOutputTXT, writeOutputJSON, logEvent.
  destruct uniqueNewAddresses as [|a u];
    cbn -[JS.join String.append readOutputJSON].
  - now rewrite <- !app_assoc.
  - destruct t as [old|]; cbn -[JS.join String.append readOutputJSON];
      rewrite <- !app_assoc; cbn [app].
    + now rewrite append_assoc.
    + now rewrite append_nil_r.
Qed.

Lemma saveAddresses_outputJSON (newAddresses : list Entry) (w : World) :
  outputJSON (saveAddresses newAddresses w) =
  Some (uniqueNewAddressesOf (readOutputJSON w) newAddresses ++ readOutputJSON w)%list.
Proof. now rewrite saveAddresses_spec. Qed.

Lemma saveAddresses_readOutputJSON (newAddresses : list Entry) (w : World) :
  readOutputJSON (saveAddresses newAddresses w) =
  (uniqueNewAddressesOf (readOutputJSON w) newAddresses ++ readOutputJSON w)%list.
Proof. now rewrite saveAddresses_spec. Qed.

Lemma saveAddresses_txtContent (newAddresses : list Entry) (w : World) :
  txtContent (saveAddresses newAddresses w) =
  txtPrefix (uniqueNewAddressesOf (readOutputJSON w) newAddresses) ++ txtContent w.
Proof.
  rewrite saveAddresses_spec. unfold txtContent at 1. cbn [outputTXT].
  now destruct (uniqueNewAddressesOf (readOutputJSON w) newAddresses).
Qed.

Lemma saveAddresses_events (newAddresses : list Entry) (w : World) :
  let uniqueNewAddresses := uniqueNewAddressesOf (readOutputJSON w) newAddresses in
  events (saveAddresses newAddresses w) =
  (events w ++ ReadJSON :: sendEvents uniqueNewAddresses
     ++ WriteJSON (uniqueNewAddresses ++ readOutputJSON w)
     :: txtEvents uniqueNewAddresses (txtContent w))%list.
Proof. intros u. now rewrite saveAddresses_spec. Qed.

(** ** The poller's candidates *)

Lemma uniqueNewAddressesOf_nil (newAddresses : list Entry) :
  uniqueNewAddressesOf [] newAddresses = newAddresses.
Proof.
  induction newAddresses as [|a l IH]; [reflexivity|].
  change (uniqueNewAddressesOf [] (a :: l)) with (a :: uniqueNewAddressesOf [] l).
  now rewrite IH.
Qed.

Lemma uniqueNewAddressesOf_In (existing newAddresses : list Entry) (a : Entry) :
  In a (uniqueNewAddressesOf existing newAddresses) <->
  In a newAddresses /\ someAddress existing (address a) = false.
Proof.
  unfold uniqueNewAddressesOf. rewrite filter_In.
  destruct (someAddress existing (address a)); simpl; intuition congruence.
Qed.

Lemma uniqueNewAddressesOf_covered (existing newAddresses : list Entry) :
  (forall a, In a newAddresses -> In (address a) (map address existing)) ->
  uniqueNewAddressesOf existing newAddresses = [].
Proof.
  intros Hall. unfold uniqueNewAddressesOf.
  induction newAddresses as [|a l IH]; [reflexivity|].
  cbn [filter].
  assert (Ha : someAddress existing (address a) = true).
  { apply someAddress_true. apply Hall. now left. }
  rewrite Ha. cbn [negb]. apply IH. intros b Hb. apply Hall. now right.
Qed.

Lemma uniqueNewAddressesOf_single_absent (existing : list Entry) (c : Entry) :
  someAddress existing (address c) = false ->
  uniqueNewAddressesOf existing [c] = [c].
Proof.
  intros H. unfold uniqueNewAddressesOf. cbn [filter]. now rewrite H.
Qed.

Lemma newAddressesOf_In (getTransaction : string -> TxLookup)
    (items : list Item) (item : Item) :
  In item items -> keepsItem item = true ->
  In (mkEntry (JS.toLowerCase (item_address item))
              (extractMethod getTransaction (creating_transaction_hash item)))
     (newAddressesOf getTransaction items).
Proof.
  intros Hin Hkeep. unfold newAddressesOf.
  apply (in_map (fun item0 =>
           mkEntry (JS.toLowerCase (item_address item0))
                   (extractMethod getTransaction (creating_transaction_hash item0)))).
  apply filter_In. now split.
Qed.

(** The addresses of the candidates do not depend on what the RPC node
    answers. *)
Lemma newAddressesOf_addresses (getTransaction1 getTransaction2 : string -> TxLookup)
    (items : list Item) :
  map address (newAddressesOf getTransaction1 items) =
  map address (newAddressesOf getTransaction2 items).
Proof.
  unfold newAddressesOf. rewrite !map_map. reflexivity.
Qed.

(** After a run every candidate's address is in the structured list. *)
Lemma saveAddresses_covers (newAddresses : list Entry) (w : World) (a : Entry) :
  In a newAddresses ->
  In (address a) (jsonAddresses (saveAddresses newAddresses w)).
Proof.
  intros Hin. unfold jsonAddresses. rewrite saveAddresses_readOutputJSON, map_app.
  apply in_or_app.
  destruct (someAddress (readOutputJSON w) (address a)) eqn:E.
  - right. now apply someAddress_true.
  - left. apply in_map. apply uniqueNewAddressesOf_In. now split.
Qed.

Lemma fetchAndSaveAddresses_readOutputJSON (reply : ApiReply)
    (getTransaction : string -> TxLookup) (w : World) :
  readOutputJSON (fetchAndSaveAddresses reply getTransaction w) =
  (admittedByPoller reply getTransaction w ++ readOutputJSON w)%list.
Proof.
  destruct reply; cbn [fetchAndSaveAddresses admittedByPoller]; try reflexivity.
  apply saveAddresses_readOutputJSON.
Qed.

Lemma fetchAndSaveAddresses_txtContent (reply : ApiReply)
    (getTransaction : string -> TxLookup) (w : World) :
  txtContent (fetchAndSaveAddresses reply getTransaction w) =
  txtPrefix (admittedByPoller reply getTransaction w) ++ txtContent w.
Proof.
  destruct reply; cbn [fetchAndSaveAddresses admittedByPoller]; try reflexivity.
  apply saveAddresses_txtContent.
Qed.

(** ** The lines of the plain mirror *)

Lemma linesFrom_line (line s rest : string) :
  noLF s = true ->
  linesFrom line (s ++ String JS.LF rest) =
  if String.eqb (line ++ s) "" then linesFrom "" rest
  else (line ++ s) :: linesFrom "" rest.
Proof.
  revert line. induction s as [|c s IH]; intros line Hs.
  - cbn [String.append linesFrom]. rewrite Ascii.eqb_refl, append_nil_r.
    reflexivity.
  - cbn [noLF] in Hs. apply andb_prop in Hs. destruct Hs as [Hc Hs].
    apply negb_true_iff in Hc.
    cbn [String.append linesFrom]. rewrite Hc, (IH _ Hs), append_assoc.
    reflexivity.
Qed.

Lemma linesFrom_join (addresses : list string) (rest : string) :
  forallb isLine addresses = true ->
  addresses <> [] ->
  linesFrom "" (JS.join JS.newline addresses ++ JS.newline ++ rest) =
  (addresses ++ linesFrom "" rest)%list.
Proof.
  induction addresses as [|x l IH]; intros Hall Hne; [congruence|].
  cbn [forallb] in Hall. apply andb_prop in Hall. destruct Hall as [Hx Hl].
  unfold isLine in Hx. apply andb_prop in Hx. destruct Hx as [Hx1 Hx2].
  apply negb_true_iff in Hx1.
  destruct l as [|y l'].
  - cbn [JS.join]. unfold JS.newline. cbn [String.append].
    rewrite linesFrom_line by assumption. cbn [String.append]. now rewrite Hx1.
  - change (JS.join JS.newline (x :: y :: l'))
      with (x ++ JS.newline ++ JS.join JS.newline (y :: l')).
    rewrite !append_assoc. unfold JS.newline at 1. cbn [String.append].
    rewrite linesFrom_line by assumption. cbn [String.append]. rewrite Hx1.
    cbn [app]. f_equal. apply IH; [assumption | discriminate].
Qed.

(** When the addresses of the candidates are lines, the poller puts the
    new addresses in front of the lines of the mirror, as it puts the new
    entries in front of the structured list: two views that list the same
    addresses still do after a run. *)
Lemma saveAddresses_txtAddresses (newAddresses : list Entry) (w : World) :
  forallb isLine (map address newAddresses) = true ->
  txtAddresses (saveAddresses newAddresses w) =
  (map address (uniqueNewAddressesOf (readOutputJSON w) newAddresses)
     ++ txtAddresses w)%list.
Proof.
  intros Hlines. unfold txtAddresses. rewrite saveAddresses_txtContent.
  assert (Hu : forallb isLine
                 (map address (uniqueNewAddressesOf (readOutputJSON w) newAddresses))
               = true).
  { apply forallb_forall. intros a Ha. apply in_map_iff in Ha.
    destruct Ha as [e [<- He]]. apply uniqueNewAddressesOf_In in He.
    rewrite forallb_forall in Hlines. apply Hlines. apply in_map. tauto. }
  destruct (uniqueNewAddressesOf (readOutputJSON w) newAddresses) as [|a u] eqn:E.
  - reflexivity.
  - unfold txtPrefix. rewrite append_assoc.
    apply linesFrom_join; [exact Hu | discriminate].
Qed.

Lemma saveAddresses_keeps_views_equal (newAddresses : list Entry) (w : World) :
  forallb isLine (map address newAddresses) = true ->
  txtAddresses w = jsonAddresses w ->
  txtAddresses (saveAddresses newAddresses w)
  = jsonAddresses (saveAddresses newAddresses w).
Proof.
  intros Hlines Hsame. rewrite saveAddresses_txtAddresses by assumption.
  unfold jsonAddresses at 1. rewrite saveAddresses_readOutputJSON, map_app.
  now rewrite Hsame.
Qed.

(** ** The listener's write *)

Lemma saveTransactionData_absent (transactionData : Entry) (w : World) :
  someAddress (readOutputJSON w) (address transactionData) = false ->
  saveTransactionData transactionData w =
  mkWorld (methodsJSON w) (Some (transactionData :: readOutputJSON w)) (outputTXT w)
          (events w
             ++ [ReadJSON; WriteJSON (transactionData :: readOutputJSON w)])%list.
Proof.
  intros H. unfold saveTransactionData. rewrite H. cbn [negb].
  unfold writeOutputJSON, logEvent. cbn [methodsJSON outputTXT events].
  now rewrite <- app_assoc.
Qed.

Lemma saveTransactionData_present (transactionData : Entry) (w : World) :
  someAddress (readOutputJSON w) (address transactionData) = true ->
  saveTransactionData transactionData w = logEvent ReadJSON w.
Proof.
  intros H. unfold saveTransactionData. now rewrite H.
Qed.

Lemma saveTransactionData_readOutputJSON (transactionData : Entry) (w : World) :
  readOutputJSON (saveTransactionData transactionData w) =
  ((if someAddress (readOutputJSON w) (address transactionData)
    then [] else [transactionData]) ++ readOutputJSON w)%list.
Proof.
  destruct (someAddress (readOutputJSON w) (address transactionData)) eqn:E.
  - now rewrite saveTransactionData_present.
  - now rewrite saveTransactionData_absent.
Qed.

Lemma saveTransactionData_outputTXT (transactionData : Entry) (w : World) :
  outputTXT (saveTransactionData transactionData w) = outputTXT w.
Proof.
  destruct (someAddress (readOutputJSON w) (address transactionData)) eqn:E.
  - now rewrite saveTransactionData_present.
  - now rewrite saveTransactionData_absent.
Qed.

Lemma readOutputJSON_save_absent (c : Entry) (w : World) :
  someAddress (readOutputJSON w) (address c) = false ->
  readOutputJSON (saveTransactionData c w) = c :: readOutputJSON w.
Proof. intros H. now rewrite saveTransactionData_absent. Qed.


Lemma readOutputJSON_poll_absent (c : Entry) (w : World) :
  someAddress (readOutputJSON w) (address c) = false ->
  readOutputJSON (saveAddresses [c] w) = c :: readOutputJSON w.
Proof.
  intros H. rewrite saveAddresses_readOutputJSON.
  now rewrite uniqueNewAddressesOf_single_absent.
Qed.

Lemma events_poll_absent (c : Entry) (w : World) :
  someAddress (readOutputJSON w) (address c) = false ->
  events (saveAddresses [c] w) =
  (events w ++ [ReadJSON; SendMessage (messageOf c);
                WriteJSON (c :: readOutputJSON w);
                WriteTXT (txtPrefix [c] ++ txtContent w)])%list.
Proof.
  intros H. rewrite saveAddresses_events. cbn zeta.
  now rewrite uniqueNewAddressesOf_single_absent.
Qed.

(** ** The three ways the loop body ends *)

Section ListenerFacts.

Variable getCreateAddress : string -> Z -> string.
Variable sendResolves : string -> bool.

Lemma processTransaction_rejected (allowedMethods : list string)
    (transaction : Transaction) (w : World) :
  JS.includes allowedMethods (JS.slice0 10 (data transaction)) = false ->
  processTransaction getCreateAddress sendResolves allowedMethods transaction w
  = Returned w.
Proof.
  intros H. unfold processTransaction. now rewrite H.
Qed.

Lemma processTransaction_accepted (allowedMethods : list string)
    (transaction : Transaction) (w : World) :
  JS.includes allowedMethods (JS.slice0 10 (data transaction)) = true ->
  sendResolves (messageOf (transactionDataOf getCreateAddress transaction)) = true ->
  processTransaction getCreateAddress sendResolves allowedMethods transaction w =
  Returned
    (saveTransactionData (transactionDataOf getCreateAddress transaction)
       (logEvent
          (SendMessage (messageOf (transactionDataOf getCreateAddress transaction)))
          w)).
Proof.
  intros Hin Hsend. unfold processTransaction, sendMessage.
  rewrite Hin. unfold messageOf, transactionDataOf in Hsend.
  cbn [address method JS.template] in Hsend. now rewrite Hsend.
Qed.

Lemma processTransaction_send_fails (allowedMethods : list string)
    (transaction : Transaction) (w : World) :
  JS.includes allowedMethods (JS.slice0 10 (data transaction)) = true ->
  sendResolves (messageOf (transactionDataOf getCreateAddress transaction)) = false ->
  processTransaction getCreateAddress sendResolves allowedMethods transaction w =
  Thrown
    (logEvent
       (SendMessage (messageOf (transactionDataOf getCreateAddress transaction)))
       w).
Proof.
  intros Hin Hsend. unfold processTransaction, sendMessage.
  rewrite Hin. unfold messageOf, transactionDataOf in Hsend.
  cbn [address method JS.template] in Hsend. now rewrite Hsend.
Qed.

(** Running the phases of a transaction one after the other is
    [processTransaction]. *)
Lemma listenerPhases_run (allowedMethods : list string)
    (transaction : Transaction) (w : World) :
  runPhases (listenerPhases getCreateAddress sendResolves allowedMethods transaction) w
  = worldOf (processTransaction getCreateAddress sendResolves allowedMethods
               transaction w).
Proof.
  unfold listenerPhases.
  destruct (JS.includes allowedMethods (JS.slice0 10 (data transaction))) eqn:Hin.
  - destruct (sendResolves (messageOf (transactionDataOf getCreateAddress transaction)))
      eqn:Hs.
    + now rewrite processTransaction_accepted.
    + now rewrite processTransaction_send_fails.
  - now rewrite processTransaction_rejected.
Qed.

Lemma processTransaction_readOutputJSON (allowedMethods : list string)
    (transaction : Transaction) (w : World) :
  readOutputJSON
    (worldOf (processTransaction getCreateAddress sendResolves allowedMethods
                transaction w)) =
  (admittedByListener getCreateAddress sendResolves allowedMethods transaction w
     ++ readOutputJSON w)%list.
Proof.
  unfold admittedByListener.
  destruct (JS.includes allowedMethods (JS.slice0 10 (data transaction))) eqn:Hin.
  - destruct (sendResolves (messageOf (transactionDataOf getCreateAddress transaction)))
      eqn:Hs.
    + rewrite processTransaction_accepted by assumption. cbn [worldOf andb].
      rewrite saveTransactionData_readOutputJSON, readOutputJSON_logEvent.
      now destruct (someAddress (readOutputJSON w) _).
    + now rewrite processTransaction_send_fails.
  - now rewrite processTransaction_rejected.
Qed.

Lemma processTransaction_outputTXT (allowedMethods : list string)
    (transaction : Transaction) (w : World) :
  outputTXT
    (worldOf (processTransaction getCreateAddress sendResolves allowedMethods
                transaction w)) = outputTXT w.
Proof.
  destruct (JS.includes allowedMethods (JS.slice0 10 (data transaction))) eqn:Hin.
  - destruct (sendResolves (messageOf (transactionDataOf getCreateAddress transaction)))
      eqn:Hs.
    + rewrite processTransaction_accepted by assumption. cbn [worldOf].
      now rewrite saveTransactionData_outputTXT.
    + now rewrite processTransaction_send_fails.
  - now rewrite processTransaction_rejected.
Qed.

(** A whole block only puts elements in front of the structured list and
    does not touch the plain mirror. *)
Lemma forTransactions_grows (allowedMethods : list string)
    (transactions : list (option Transaction)) (w : World) :
  let w1 := worldOf (forTransactions getCreateAddress sendResolves allowedMethods
                       transactions w) in
  (exists fresh, readOutputJSON w1 = (fresh ++ readOutputJSON w)%list)
  /\ outputTXT w1 = outputTXT w.
Proof.
  revert w.
  induction transactions as [|[transaction|] rest IH]; intros w; cbn zeta.
  - split; [now exists [] | reflexivity].
  - cbn [forTransactions].
    pose proof (processTransaction_readOutputJSON allowedMethods transaction w) as Hj.
    pose proof (processTransaction_outputTXT allowedMethods transaction w) as Ht.
    destruct (processTransaction getCreateAddress sendResolves allowedMethods
                transaction w) as [w1|w1]; cbn [worldOf] in Hj, Ht.
    + destruct (IH w1) as [[fresh Hfresh] Htxt]. split.
      * eexists. rewrite Hfresh, Hj. now rewrite app_assoc.
      * now rewrite Htxt.
    + cbn [worldOf]. split; [eexists; exact Hj | exact Ht].
  - cbn [forTransactions]. apply IH.
Qed.

(** The listener keeps the addresses of the structured list distinct. *)
Lemma processTransaction_keeps_unique (allowedMethods : list string)
    (transaction : Transaction) (w : World) :
  addressesUnique w ->
  addressesUnique
    (worldOf (processTransaction getCreateAddress sendResolves allowedMethods
                transaction w)).
Proof.
  unfold addressesUnique, jsonAddresses. intros Hw.
  rewrite processTransaction_readOutputJSON. unfold admittedByListener.
  destruct (JS.includes allowedMethods (JS.slice0 10 (data transaction)));
    cbn [andb app]; try assumption.
  destruct (sendResolves (messageOf (transactionDataOf getCreateAddress transaction)));
    cbn [andb app]; try assumption.
  destruct (someAddress (readOutputJSON w)
              (address (transactionDataOf getCreateAddress transaction))) eqn:E;
    cbn [negb app map]; try assumption.
  constructor; [now apply someAddress_false | assumption].
Qed.

End ListenerFacts.

(** The poller keeps the addresses of the structured list distinct when the
    candidates of the response have distinct addresses. *)
Lemma saveAddresses_keeps_unique (newAddresses : list Entry) (w : World) :
  NoDup (map address newAddresses) ->
  addressesUnique w ->
  addressesUnique (saveAddresses newAddresses w).
Proof.
  unfold addressesUnique, jsonAddresses. intros Hnew Hw.
  rewrite saveAddresses_readOutputJSON, map_app.
  induction newAddresses as [|a l IH]; [exact Hw|].
  inversion Hnew as [|x xs Hnotin Hrest]; subst.
  unfold uniqueNewAddressesOf in *. cbn [filter].
  destruct (someAddress (readOutputJSON w) (address a)) eqn:E; cbn [negb].
  - now apply IH.
  - cbn [map app]. constructor; [|now apply IH].
    intros Hin. apply in_app_or in Hin. destruct Hin as [Hin | Hin].
    + apply Hnotin. apply in_map_iff in Hin. destruct Hin as [b [Hb Hin]].
      apply filter_In in Hin. rewrite <- Hb. apply in_map. tauto.
    + apply someAddress_false in E. contradiction.
Qed.

(** ** Overlapping callbacks *)

Example interleavings_two_two :
  interleavings [1; 2] [3; 4]%nat =
  [[1; 2; 3; 4]; [1; 3; 2; 4]; [1; 3; 4; 2];
   [3; 1; 2; 4]; [3; 1; 4; 2]; [3; 4; 1; 2]]%nat.
Proof. reflexivity. Qed.

Lemma interleavings_In {A : Type} (l r s : list A) :
  In s (interleavings l r) -> forall x, In x s -> In x l \/ In x r.
Proof.
  revert r s. induction l as [|x l' IHl]; intros r s Hin z Hz.
  - cbn [interleavings In] in Hin. destruct Hin as [<- | []]. now right.
  - revert s Hin z Hz. induction r as [|y r' IHr]; intros s Hin z Hz.
    + cbn [interleavings In] in Hin. destruct Hin as [<- | []]. now left.
    + cbn [interleavings] in Hin. apply in_app_or in Hin.
      destruct Hin as [Hin | Hin]; apply in_map_iff in Hin;
        destruct Hin as [s' [<- Hs']]; destruct Hz as [<- | Hz].
      * left. now left.
      * destruct (IHl _ _ Hs' _ Hz) as [H | H]; [left; now right | now right].
      * right. now left.
      * destruct (IHr _ Hs' _ Hz) as [H | H]; [now left | right; now right].
Qed.

Lemma saveTransactionData_keeps_unique (c : Entry) (w : World) :
  addressesUnique w -> addressesUnique (saveTransactionData c w).
Proof.
  unfold addressesUnique, jsonAddresses. intros Hw.
  rewrite saveTransactionData_readOutputJSON.
  destruct (someAddress (readOutputJSON w) (address c)) eqn:E; cbn [app map].
  - exact Hw.
  - constructor; [now apply someAddress_false | exact Hw].
Qed.

(** Every phase of a callback keeps the addresses of the structured list
    distinct, provided the candidates of a response have distinct
    addresses. *)
Lemma phase_keeps_unique (getCreateAddress : string -> Z -> string)
    (sendResolves : string -> bool) (t : Callback) (phase : Phase) (w : World) :
  NoDup (map address (candidatesOf getCreateAddress sendResolves t)) ->
  In phase (phasesOf getCreateAddress sendResolves t) ->
  addressesUnique w -> addressesUnique (phase w).
Proof.
  destruct t as [allowedMethods transaction | newAddresses];
    cbn [candidatesOf phasesOf]; intros Hnew Hin Hw.
  - unfold listenerPhases in Hin.
    destruct (JS.includes allowedMethods (JS.slice0 10 (data transaction)));
      [|contradiction].
    destruct (sendResolves
                (messageOf (transactionDataOf getCreateAddress transaction)));
      cbn [In] in Hin.
    + destruct Hin as [<- | [<- | []]].
      * exact Hw.
      * now apply saveTransactionData_keeps_unique.
    + destruct Hin as [<- | []]. exact Hw.
  - cbn [In] in Hin. destruct Hin as [<- | []].
    now apply saveAddresses_keeps_unique.
Qed.

(** However two callbacks overlap, the addresses of the structured list stay
    distinct, provided no response offers an address twice. *)
Lemma overlap_keeps_unique (getCreateAddress : string -> Z -> string)
    (sendResolves : string -> bool) (t1 t2 : Callback) (schedule : list Phase)
    (w : World) :
  NoDup (map address (candidatesOf getCreateAddress sendResolves t1)) ->
  NoDup (map address (candidatesOf getCreateAddress sendResolves t2)) ->
  In schedule (interleavings (phasesOf getCreateAddress sendResolves t1)
                             (phasesOf getCreateAddress sendResolves t2)) ->
  addressesUnique w -> addressesUnique (runPhases schedule w).
Proof.
  intros H1 H2 Hin.
  pose proof (interleavings_In _ _ _ Hin) as Hfrom. clear Hin.
  revert w. induction schedule as [|phase rest IH]; intros w Hw; [exact Hw|].
  cbn [runPhases fold_left]. apply IH.
  - intros x Hx. apply Hfrom. now right.
  - destruct (Hfrom phase (or_introl eq_refl)) as [Hp | Hp].
    + now apply (phase_keeps_unique getCreateAddress sendResolves t1).
    + now apply (phase_keeps_unique getCreateAddress sendResolves t2).
Qed.

(** ** What each phase does to what is observed *)

Lemma txtContent_logEvent (e : Event) (w : World) :
  txtContent (logEvent e w) = txtContent w.
Proof. reflexivity. Qed.

Lemma accesses_send (text : string) (w : World) :
  registryAccesses (events (logEvent (SendMessage text) w))
  = registryAccesses (events w).
Proof.
  rewrite events_logEvent, registryAccesses_app. cbn [registryAccesses].
  now rewrite app_nil_r.
Qed.

Lemma notifications_send (text : string) (w : World) :
  notifications (logEvent (SendMessage text) w) = (notifications w ++ [text])%list.
Proof.
  unfold notifications. now rewrite events_logEvent, notificationsOf_app.
Qed.

Lemma readOutputJSON_save (c : Entry) (w : World) :
  readOutputJSON (saveTransactionData c w)
  = (uniqueNewAddressesOf (readOutputJSON w) [c] ++ readOutputJSON w)%list.
Proof.
  rewrite saveTransactionData_readOutputJSON. unfold uniqueNewAddressesOf.
  cbn [filter]. now destruct (someAddress (readOutputJSON w) (address c)).
Qed.

Lemma txtContent_save (c : Entry) (w : World) :
  txtContent (saveTransactionData c w) = txtContent w.
Proof.
  unfold txtContent. now rewrite saveTransactionData_outputTXT.
Qed.

Lemma events_save (c : Entry) (w : World) :
  events (saveTransactionData c w)
  = (events w ++ listenerAccesses (readOutputJSON w) c)%list.
Proof.
  unfold listenerAccesses.
  destruct (someAddress (readOutputJSON w) (address c)) eqn:E.
  - now rewrite saveTransactionData_present.
  - now rewrite saveTransactionData_absent.
Qed.

Lemma accesses_save (c : Entry) (w : World) :
  registryAccesses (events (saveTransactionData c w))
  = (registryAccesses (events w) ++ listenerAccesses (readOutputJSON w) c)%list.
Proof.
  rewrite events_save, registryAccesses_app. f_equal. unfold listenerAccesses.
  now destruct (someAddress (readOutputJSON w) (address c)).
Qed.

Lemma notifications_save (c : Entry) (w : World) :
  notifications (saveTransactionData c w) = notifications w.
Proof.
  unfold notifications. rewrite events_save, notificationsOf_app.
  unfold listenerAccesses.
  destruct (someAddress (readOutputJSON w) (address c)); cbn [notificationsOf];
    now rewrite app_nil_r.
Qed.

Lemma accesses_poll (newAddresses : list Entry) (w : World) :
  registryAccesses (events (saveAddresses newAddresses w))
  = (registryAccesses (events w)
       ++ [ReadJSON;
           WriteJSON (uniqueNewAddressesOf (readOutputJSON w) newAddresses
                        ++ readOutputJSON w)])%list.
Proof.
  rewrite saveAddresses_events. cbn zeta.
  rewrite registryAccesses_app. cbn [registryAccesses].
  rewrite registryAccesses_app, registryAccesses_sendEvents.
  cbn [registryAccesses app].
  now destruct (uniqueNewAddressesOf (readOutputJSON w) newAddresses).
Qed.

Lemma notifications_poll (newAddresses : list Entry) (w : World) :
  notifications (saveAddresses newAddresses w)
  = (notifications w
       ++ map messageOf (uniqueNewAddressesOf (readOutputJSON w) newAddresses))%list.
Proof.
  unfold notifications. rewrite saveAddresses_events. cbn zeta.
  rewrite notificationsOf_app. cbn [notificationsOf].
  rewrite notificationsOf_app, notificationsOf_sendEvents. cbn [notificationsOf].
  f_equal.
  destruct (uniqueNewAddressesOf (readOutputJSON w) newAddresses);
    cbn [txtEvents notificationsOf]; now rewrite app_nil_r.
Qed.

Lemma uniqueNewAddressesOf_none (existing : list Entry) :
  uniqueNewAddressesOf existing [] = [].
Proof. reflexivity. Qed.

(** Rewrites what is observed after a phase into what was observed before
    it. *)
Ltac before_phase :=
  repeat first
    [ rewrite readOutputJSON_logEvent | rewrite txtContent_logEvent
    | rewrite accesses_send | rewrite notifications_send
    | rewrite readOutputJSON_save | rewrite txtContent_save
    | rewrite accesses_save | rewrite notifications_save
    | rewrite saveAddresses_readOutputJSON | rewrite saveAddresses_txtContent
    | rewrite accesses_poll | rewrite notifications_poll
    | rewrite uniqueNewAddressesOf_none ].

(** ** Overlapping callbacks run as if one after the other *)

(** Reads the list, the mirror, the accesses and the messages off a world
    built from phases, and compares them with the callbacks' own. *)
Ltac observe :=
  unfold ranInOrder, admittedBy, mirroredBy, messagesOf, accessesOf;
  cbn [candidatesOf];
  repeat match goal with
         | H : _ = true |- _ => rewrite H
         | H : _ = false |- _ => rewrite H
         end;
  cbn [andb txtPrefix String.append];
  before_phase;
  repeat rewrite ?app_nil_r, <- ?app_assoc; cbn [app map];
  repeat split.

Ltac observed :=
  observe;
  first
    [ reflexivity
    | apply Permutation_app_head; apply Permutation_app_comm
    | apply Permutation_app_head; apply perm_swap
    | apply Permutation_app_head;
      apply (Permutation_app_comm (_ :: nil)) ].

Lemma interleaved_run_is_serial (getCreateAddress : string -> Z -> string)
    (sendResolves : string -> bool) (t1 t2 : Callback) (w : World)
    (schedule : list Phase) :
  In schedule (interleavings (phasesOf getCreateAddress sendResolves t1)
                             (phasesOf getCreateAddress sendResolves t2)) ->
  exists first second,
    ((first = t1 /\ second = t2) \/ (first = t2 /\ second = t1))
    /\ ranInOrder getCreateAddress sendResolves first second w
         (runPhases schedule w).
Proof.
  intros Hin.
  destruct t1 as [allowed1 tx1 | new1]; destruct t2 as [allowed2 tx2 | new2];
    cbn [phasesOf] in Hin; unfold listenerPhases in Hin;
    repeat match type of Hin with
           | context [JS.includes ?a ?b] => destruct (JS.includes a b) eqn:?
           | context [sendResolves ?m] => destruct (sendResolves m) eqn:?
           end;
    cbn [interleavings map app In] in Hin;
    repeat (destruct Hin as [<- | Hin]); try contradiction;
    cbn [runPhases fold_left];
    match goal with
    | |- exists first second, (first = ?a /\ second = ?b \/ _) /\ _ =>
        first [ exists a, b; split; [now left|]; solve [observed]
              | exists b, a; split; [now right|]; solve [observed] ]
    end.
Qed.

Lemma uniqueNewAddressesOf_all_absent (existing newAddresses : list Entry) :
  (forall c, In c newAddresses -> someAddress existing (address c) = false) ->
  uniqueNewAddressesOf existing newAddresses = newAddresses.
Proof.
  intros Habsent. unfold uniqueNewAddressesOf.
  induction newAddresses as [|a l IH]; [reflexivity|].
  cbn [filter]. rewrite (Habsent a (or_introl eq_refl)). cbn [negb].
  f_equal. apply IH. intros c Hc. apply Habsent. now right.
Qed.

Lemma someAddress_app (l1 l2 : list Entry) (a : string) :
  someAddress (l1 ++ l2)%list a = (someAddress l1 a || someAddress l2 a)%bool.
Proof. unfold someAddress. apply existsb_app. Qed.

Lemma NoDup_app_disjoint {A : Type} (l1 l2 : list A) (x : A) :
  NoDup (l1 ++ l2)%list -> In x l1 -> In x l2 -> False.
Proof.
  induction l1 as [|y l1 IH]; intros Hnd H1 H2; [contradiction|].
  cbn [app] in Hnd. inversion Hnd as [|z l Hnotin Hrest]; subst.
  destruct H1 as [-> | H1].
  - apply Hnotin. apply in_or_app. now right.
  - now apply IH.
Qed.

Lemma messagesOf_resolved (getCreateAddress : string -> Z -> string)
    (sendResolves : string -> bool) (existing : list Entry) (t : Callback) :
  sendsResolve getCreateAddress sendResolves t = true ->
  admittedBy getCreateAddress sendResolves existing t
  = candidatesOf getCreateAddress sendResolves t ->
  messagesOf getCreateAddress existing t
  = map messageOf (candidatesOf getCreateAddress sendResolves t).
Proof.
  unfold admittedBy.
  destruct t as [allowedMethods transaction | newAddresses];
    cbn [sendsResolve messagesOf candidatesOf]; intros Hsend Hall.
  - destruct (JS.includes allowedMethods (JS.slice0 10 (data transaction)));
      [|reflexivity].
    cbn [negb orb] in Hsend. now rewrite Hsend.
  - now rewrite Hall.
Qed.

(** When the candidates of the two callbacks have pairwise distinct
    addresses, none of them in the list, and no send is rejected, a run in
    order admits every candidate and sends one message for each. *)
Lemma ranInOrder_admits_all (getCreateAddress : string -> Z -> string)
    (sendResolves : string -> bool) (first second : Callback) (w w1 : World) :
  ranInOrder getCreateAddress sendResolves first second w w1 ->
  sendsResolve getCreateAddress sendResolves first = true ->
  sendsResolve getCreateAddress sendResolves second = true ->
  NoDup (map address (candidatesOf getCreateAddress sendResolves first
                        ++ candidatesOf getCreateAddress sendResolves second)) ->
  (forall c, In c (candidatesOf getCreateAddress sendResolves first
                     ++ candidatesOf getCreateAddress sendResolves second) ->
             someAddress (readOutputJSON w) (address c) = false) ->
  readOutputJSON w1
  = (candidatesOf getCreateAddress sendResolves second
       ++ candidatesOf getCreateAddress sendResolves first
       ++ readOutputJSON w)%list
  /\ Permutation (notifications w1)
       (notifications w
          ++ map messageOf (candidatesOf getCreateAddress sendResolves first
                              ++ candidatesOf getCreateAddress sendResolves second))%list.
Proof.
  intros Hran Hs1 Hs2 Hnd Habsent.
  destruct Hran as [Hjson [_ [_ Hperm]]]. cbn zeta in Hjson, Hperm.
  assert (H1 : admittedBy getCreateAddress sendResolves (readOutputJSON w) first
               = candidatesOf getCreateAddress sendResolves first).
  { apply uniqueNewAddressesOf_all_absent. intros c Hc. apply Habsent.
    apply in_or_app. now left. }
  rewrite H1 in Hjson, Hperm.
  assert (H2 : admittedBy getCreateAddress sendResolves
                 (candidatesOf getCreateAddress sendResolves first
                    ++ readOutputJSON w)%list second
               = candidatesOf getCreateAddress sendResolves second).
  { apply uniqueNewAddressesOf_all_absent. intros c Hc.
    rewrite someAddress_app.
    rewrite (Habsent c) by (apply in_or_app; now right).
    rewrite orb_false_r. apply someAddress_false. intros Hin.
    rewrite map_app in Hnd.
    apply (NoDup_app_disjoint _ _ (address c) Hnd Hin). now apply in_map. }
  rewrite H2 in Hjson. split; [exact Hjson|].
  rewrite (messagesOf_resolved _ _ _ _ Hs1 H1) in Hperm.
  rewrite (messagesOf_resolved _ _ _ _ Hs2 H2) in Hperm.
  now rewrite map_app.
Qed.


(** * The claims of the specification *)

(** C1, at the failing input.  One response of the poller holds the same
    address twice, in two spellings; on an empty registry both records are
    admitted: the structured list holds the address twice, and two messages
    are sent for it. *)
Theorem poller_admits_repeated_address :
  let w1 := fetchAndSaveAddresses (ReplyData [tokenItem; tokenItemAgain]) sampleRpc
              emptyWorld in
  jsonAddresses w1 = ["0xfffd933a0bc612844eaf0c6fe3e5b8e9b6c1d19c";
                      "0xfffd933a0bc612844eaf0c6fe3e5b8e9b6c1d19c"]
  /\ List.length (notifications w1) = 2%nat
  /\ ~ addressesUnique w1.
Proof.
  cbn zeta. split; [reflexivity | split; [reflexivity|]].
  unfold addressesUnique.
  change (jsonAddresses
            (fetchAndSaveAddresses (ReplyData [tokenItem; tokenItemAgain]) sampleRpc
               emptyWorld))
    with ["0xfffd933a0bc612844eaf0c6fe3e5b8e9b6c1d19c";
          "0xfffd933a0bc612844eaf0c6fe3e5b8e9b6c1d19c"].
  intros H. inversion H as [|x l Hnotin Hrest]. apply Hnotin. now left.
Qed.

(** C2, at the failing input.  On an empty registry the listener admits the
    contract of an accepted transaction (nonce 3 of the sample sender, as
    the provider spells it): the structured list holds its address and no
    plain mirror is written, so the two views do not hold the same
    addresses.  This is so whatever address the derivation gives. *)
Theorem listener_skips_plain_mirror (getCreateAddress : string -> Z -> string) :
  let w1 := worldOf (processTransaction getCreateAddress alwaysResolves
                       (methodsJSON emptyWorld) deployTx emptyWorld) in
  jsonAddresses w1 = [JS.toLowerCase (getCreateAddress sampleSender 3%Z)]
  /\ outputTXT w1 = None
  /\ txtAddresses w1 = []
  /\ sameSet (jsonAddresses w1) (txtAddresses w1) = false.
Proof.
  cbn zeta. rewrite processTransaction_accepted by reflexivity.
  cbn [worldOf]. rewrite saveTransactionData_absent by reflexivity.
  repeat split.
Qed.




(** C4, at the failing input.  The structured list already holds the
    address of the contract an accepted transaction deploys (nonce 3 of the
    sample sender, as the provider spells it): the listener sends the
    message all the same and admits nothing. *)
Theorem listener_notifies_known_address
    (getCreateAddress : string -> Z -> string) (known : option string) :
  let transactionData := transactionDataOf getCreateAddress deployTx in
  let w := mkWorld ["0x60806040"] (Some [mkEntry (address transactionData) known])
                   None [] in
  let w1 := worldOf (processTransaction getCreateAddress alwaysResolves
                       (methodsJSON w) deployTx w) in
  admittedByListener getCreateAddress alwaysResolves (methodsJSON w) deployTx w = []
  /\ outputJSON w1 = outputJSON w
  /\ notifications w1 = [messageOf transactionData].
Proof.
  cbn zeta.
  assert (Hknown :
    someAddress
      [mkEntry (address (transactionDataOf getCreateAddress deployTx)) known]
      (address (transactionDataOf getCreateAddress deployTx)) = true)
    by (rewrite someAddress_cons; cbn [address]; now rewrite String.eqb_refl).
  split; [|split].
  - unfold admittedByListener. cbn [readOutputJSON outputJSON].
    rewrite Hknown. now rewrite andb_false_r.
  - rewrite processTransaction_accepted by reflexivity. cbn [worldOf].
    rewrite saveTransactionData_present; [reflexivity|]. exact Hknown.
  - rewrite processTransaction_accepted by reflexivity. cbn [worldOf].
    rewrite saveTransactionData_present; [reflexivity|]. exact Hknown.
Qed.

(** C5, counterexample.  With ["0x60806040"] as the only allowed method, the
    poller admits a record whose creating transaction starts with
    ["0xa9059cbb"], and a record whose method could not be resolved. *)
Lemma poller_admits_unlisted_selector :
  methodsJSON emptyWorld = ["0x60806040"]
  /\ JS.includes (methodsJSON emptyWorld) "0xa9059cbb" = false
  /\ readOutputJSON
       (fetchAndSaveAddresses (ReplyData [tokenItem; otherItem]) sampleRpc emptyWorld)
     = [mkEntry "0xfffd933a0bc612844eaf0c6fe3e5b8e9b6c1d19c" (Some "0xa9059cbb");
        mkEntry "0xcd234a471b72ba2f1ccf0a70fcaba648a5eecd8d" None].
Proof. repeat split. Qed.

(** C5, amended.  A transaction of the listener whose method signature is
    not among the allowed methods read for its block is never admitted: the
    loop body leaves the world as it was, whether or not the address is
    known.  The poller does not consult the allowed methods: every record it
    keeps (an address, a name other than "Uniswap V2") has its lowercased
    address in the list after the run, and when that address was not there
    before, the record is admitted with whatever method [extractMethod]
    gave. *)
Theorem listener_filters_poller_does_not
    (getCreateAddress : string -> Z -> string) (sendResolves : string -> bool)
    (allowedMethods : list string) (transaction : Transaction)
    (items : list Item) (getTransaction : string -> TxLookup) (item : Item)
    (w : World) :
  JS.includes allowedMethods (JS.slice0 10 (data transaction)) = false ->
  In item items ->
  keepsItem item = true ->
  let w1 := fetchAndSaveAddresses (ReplyData items) getTransaction w in
  let candidate :=
    mkEntry (JS.toLowerCase (item_address item))
            (extractMethod getTransaction (creating_transaction_hash item)) in
  processTransaction getCreateAddress sendResolves allowedMethods transaction w
  = Returned w
  /\ In (address candidate) (jsonAddresses w1)
  /\ (someAddress (readOutputJSON w) (address candidate) = false ->
      In candidate (readOutputJSON w1)).
Proof.
  intros Hout Hin Hkeep w1 candidate.
  assert (Hcand : In candidate (newAddressesOf getTransaction items))
    by now apply newAddressesOf_In.
  split; [now apply processTransaction_rejected | split].
  - now apply saveAddresses_covers.
  - intros Habsent. unfold w1. cbn [fetchAndSaveAddresses].
    rewrite saveAddresses_readOutputJSON. apply in_or_app. left.
    apply uniqueNewAddressesOf_In. now split.
Qed.

(** C5, the amended claim on a transaction with a short input and on the
    first record of a response of two. *)
Lemma listener_filters_poller_does_not_witness :
  let w1 := fetchAndSaveAddresses (ReplyData [tokenItem; otherItem]) sampleRpc
              emptyWorld in
  let candidate := mkEntry "0xfffd933a0bc612844eaf0c6fe3e5b8e9b6c1d19c"
                           (Some "0xa9059cbb") in
  processTransaction sampleCreateAddress alwaysResolves ["0x60806040"] shortTx
    emptyWorld = Returned emptyWorld
  /\ In (address candidate) (jsonAddresses w1)
  /\ (someAddress (readOutputJSON emptyWorld) (address candidate) = false ->
      In candidate (readOutputJSON w1)).
Proof.
  apply (listener_filters_poller_does_not sampleCreateAddress alwaysResolves
           ["0x60806040"] shortTx [tokenItem; otherItem] sampleRpc tokenItem
           emptyWorld).
  - reflexivity.
  - simpl. now left.
  - reflexivity.
Defined.

(** C6.  Two callbacks of either source, each with any candidates, run
    overlapped: their phases are taken in any order that keeps each
    callback's own order.  Whatever that order, the outcome is that of the
    two callbacks doing their read and write of [addresses.json] one after
    the other, in one of the two orders: the second sees, and writes back
    with its own, what the first wrote, every read is directly followed by
    the write of the same callback, and the messages are those of the two,
    in some order.  In particular, when no send is rejected and the
    candidates have pairwise distinct addresses, none of them in the list,
    every candidate of both callbacks ends in the list once, in front of the
    old entries, with one message sent for each. *)
Theorem overlapping_admissions_are_serialized
    (getCreateAddress : string -> Z -> string) (sendResolves : string -> bool)
    (t1 t2 : Callback) (w : World) (schedule : list Phase) :
  In schedule (interleavings (phasesOf getCreateAddress sendResolves t1)
                             (phasesOf getCreateAddress sendResolves t2)) ->
  let w1 := runPhases schedule w in
  let candidates1 := candidatesOf getCreateAddress sendResolves t1 in
  let candidates2 := candidatesOf getCreateAddress sendResolves t2 in
  exists first second,
    ((first = t1 /\ second = t2) \/ (first = t2 /\ second = t1))
    /\ ranInOrder getCreateAddress sendResolves first second w w1
    /\ (sendsResolve getCreateAddress sendResolves t1 = true ->
        sendsResolve getCreateAddress sendResolves t2 = true ->
        NoDup (map address (candidates1 ++ candidates2)) ->
        (forall c, In c (candidates1 ++ candidates2)%list ->
                   someAddress (readOutputJSON w) (address c) = false) ->
        readOutputJSON w1
        = (candidatesOf getCreateAddress sendResolves second
             ++ candidatesOf getCreateAddress sendResolves first
             ++ readOutputJSON w)%list
        /\ Permutation (notifications w1)
             (notifications w ++ map messageOf (candidates1 ++ candidates2))%list).
Proof.
  intros Hin w1 candidates1 candidates2.
  destruct (interleaved_run_is_serial _ _ _ _ w _ Hin)
    as [first [second [Horder Hran]]].
  exists first, second. split; [exact Horder|]. split; [exact Hran|].
  intros Hs1 Hs2 Hnd Habsent.
  destruct Horder as [[-> ->] | [-> ->]].
  - now apply ranInOrder_admits_all.
  - destruct (ranInOrder_admits_all _ _ _ _ _ _ Hran Hs2 Hs1) as [Hjson Hperm].
    + rewrite map_app. rewrite map_app in Hnd.
      apply (Permutation_NoDup (Permutation_app_comm _ _) Hnd).
    + intros c Hc. apply Habsent. apply in_app_or in Hc. apply in_or_app. tauto.
    + split; [exact Hjson|].
      apply (Permutation_trans Hperm). apply Permutation_app_head.
      apply Permutation_map. apply Permutation_app_comm.
Qed.

(** C6, on the sample transaction of the listener overlapping with a poll
    that offers two other addresses: the message of the listener is sent,
    the poller then reads, sends and writes, and the listener reads and
    writes last. *)
Lemma overlapping_admissions_are_serialized_witness :
  let t1 := ListenerCallback ["0x60806040"] deployTx in
  let t2 := PollerCallback
              [mkEntry "0xcd234a471b72ba2f1ccf0a70fcaba648a5eecd8d" None;
               mkEntry "0x343c43a37d37dff08ae8c4a11544c718abb4fcf8"
                       (Some "0xa9059cbb")] in
  let c1 := transactionDataOf sampleCreateAddress deployTx in
  let w1 := runPhases [logEvent (SendMessage (messageOf c1));
                       saveAddresses (candidatesOf sampleCreateAddress
                                        alwaysResolves t2);
                       saveTransactionData c1] emptyWorld in
  exists first second,
    ((first = t1 /\ second = t2) \/ (first = t2 /\ second = t1))
    /\ ranInOrder sampleCreateAddress alwaysResolves first second emptyWorld w1
    /\ readOutputJSON w1
       = (candidatesOf sampleCreateAddress alwaysResolves second
            ++ candidatesOf sampleCreateAddress alwaysResolves first
            ++ readOutputJSON emptyWorld)%list
    /\ Permutation (notifications w1)
         (notifications emptyWorld
            ++ map messageOf
                 (candidatesOf sampleCreateAddress alwaysResolves t1
                    ++ candidatesOf sampleCreateAddress alwaysResolves t2))%list.
Proof.
  intros t1 t2 c1 w1.
  destruct (overlapping_admissions_are_serialized sampleCreateAddress
              alwaysResolves t1 t2 emptyWorld
              [logEvent (SendMessage (messageOf c1));
               saveAddresses (candidatesOf sampleCreateAddress alwaysResolves t2);
               saveTransactionData c1])
    as [first [second [Horder [Hran Hall]]]].
  - right. left. reflexivity.
  - exists first, second. split; [exact Horder|]. split; [exact Hran|].
    apply Hall.
    + reflexivity.
    + reflexivity.
    + simpl. repeat constructor; simpl; intuition discriminate.
    + intros c Hc. reflexivity.
Defined.

(** C7.  A second run of the poller on the same response, from the world the
    first run left, admits nothing and sends nothing: the messages and both
    files are what they were after the first run.  This holds whatever the
    RPC node answers in either run. *)
Theorem second_poll_changes_nothing (reply : ApiReply)
    (getTransaction1 getTransaction2 : string -> TxLookup) (w : World) :
  let w1 := fetchAndSaveAddresses reply getTransaction1 w in
  let w2 := fetchAndSaveAddresses reply getTransaction2 w1 in
  admittedByPoller reply getTransaction2 w1 = []
  /\ notifications w2 = notifications w1
  /\ outputJSON w2 = outputJSON w1
  /\ outputTXT w2 = outputTXT w1.
Proof.
  intros w1 w2.
  destruct reply as [items| |]; cbn [fetchAndSaveAddresses admittedByPoller] in *;
    try (repeat split; reflexivity).
  assert (Hnone :
    uniqueNewAddressesOf (readOutputJSON w1) (newAddressesOf getTransaction2 items)
    = []).
  { apply uniqueNewAddressesOf_covered. intros a Ha.
    apply (in_map address) in Ha.
    rewrite (newAddressesOf_addresses getTransaction2 getTransaction1) in Ha.
    apply in_map_iff in Ha. destruct Ha as [b [Hb Hin]].
    rewrite <- Hb. now apply saveAddresses_covers. }
  split; [exact Hnone|].
  unfold w2. rewrite saveAddresses_spec. cbn zeta. rewrite Hnone.
  cbn [outputJSON outputTXT app sendEvents map txtEvents].
  unfold notifications. cbn [events]. rewrite notificationsOf_app.
  cbn [notificationsOf]. rewrite app_nil_r.
  repeat split.
  unfold w1 at 2. rewrite saveAddresses_outputJSON.
  unfold w1. now rewrite saveAddresses_readOutputJSON.
Qed.

(** C8.  Every step only puts new elements in front of the structured list
    and leaves the elements that were there as they were, in their order:
    one transaction of the listener puts at most its own element in front
    and does not touch the plain mirror, a whole block puts some elements in
    front, and a run of the poller puts its new entries in front of the list
    and their addresses, one per line, in front of the mirror's text. *)
Theorem admission_only_prepends
    (getCreateAddress : string -> Z -> string) (sendResolves : string -> bool)
    (allowedMethods : list string) (transaction : Transaction)
    (block : option (list (option Transaction)))
    (reply : ApiReply) (getTransaction : string -> TxLookup) (w : World) :
  let afterTransaction :=
    worldOf (processTransaction getCreateAddress sendResolves allowedMethods
               transaction w) in
  let afterBlock := worldOf (blockHandler getCreateAddress sendResolves block w) in
  let afterPoll := fetchAndSaveAddresses reply getTransaction w in
  (readOutputJSON afterTransaction =
     (admittedByListener getCreateAddress sendResolves allowedMethods transaction w
        ++ readOutputJSON w)%list
   /\ outputTXT afterTransaction = outputTXT w)
  /\ ((exists fresh, readOutputJSON afterBlock = (fresh ++ readOutputJSON w)%list)
      /\ outputTXT afterBlock = outputTXT w)
  /\ (readOutputJSON afterPoll =
        (admittedByPoller reply getTransaction w ++ readOutputJSON w)%list
      /\ txtContent afterPoll =
         txtPrefix (admittedByPoller reply getTransaction w) ++ txtContent w).
Proof.
  cbn zeta. split; [split | split; [|split]].
  - apply processTransaction_readOutputJSON.
  - apply processTransaction_outputTXT.
  - unfold blockHandler. destruct block as [transactions|].
    + apply forTransactions_grows.
    + split; [now exists [] | reflexivity].
  - apply fetchAndSaveAddresses_readOutputJSON.
  - apply fetchAndSaveAddresses_txtContent.
Qed.

(** C9.  When a transaction's input data has fewer than ten characters (the
    ["0x"] prefix and fewer than four bytes) and every allowed method has
    ten, the method signature the listener computes is not among the allowed
    methods; the loop body returns without an exception and leaves the files
    and the bot untouched. *)
Theorem short_input_never_matches
    (getCreateAddress : string -> Z -> string) (sendResolves : string -> bool)
    (allowedMethods : list string) (transaction : Transaction) (w : World) :
  (String.length (data transaction) < 10)%nat ->
  (forall m, In m allowedMethods -> String.length m = 10%nat) ->
  JS.includes allowedMethods (JS.slice0 10 (data transaction)) = false
  /\ processTransaction getCreateAddress sendResolves allowedMethods transaction w
     = Returned w.
Proof.
  intros Hshort Hfull.
  assert (Hno : JS.includes allowedMethods (JS.slice0 10 (data transaction)) = false).
  { apply includes_false. intros Hin.
    rewrite slice0_short in Hin by lia.
    apply Hfull in Hin. lia. }
  split; [exact Hno | now apply processTransaction_rejected].
Qed.

(** C9, on a transaction whose input is ["0x6080"]. *)
Lemma short_input_never_matches_witness :
  JS.includes ["0x60806040"] (JS.slice0 10 (data shortTx)) = false
  /\ processTransaction sampleCreateAddress alwaysResolves ["0x60806040"] shortTx
       emptyWorld = Returned emptyWorld.
Proof.
  apply (short_input_never_matches sampleCreateAddress alwaysResolves
           ["0x60806040"] shortTx emptyWorld).
  - simpl. lia.
  - intros m [<- | []]. reflexivity.
Defined.

(** C10.  When [addresses.json] does not exist, both paths read the empty
    list, so every address counts as absent.  The listener then returns
    normally from an accepted transaction whose message was sent, having
    created the file with that one element; the poller creates the file with
    every candidate of the response. *)
Theorem missing_file_reads_as_empty
    (getCreateAddress : string -> Z -> string) (sendResolves : string -> bool)
    (allowedMethods : list string) (transaction : Transaction)
    (items : list Item) (getTransaction : string -> TxLookup) (w : World) :
  outputJSON w = None ->
  JS.includes allowedMethods (JS.slice0 10 (data transaction)) = true ->
  sendResolves (messageOf (transactionDataOf getCreateAddress transaction)) = true ->
  readOutputJSON w = []
  /\ (exists w1,
        processTransaction getCreateAddress sendResolves allowedMethods transaction w
        = Returned w1
        /\ outputJSON w1 = Some [transactionDataOf getCreateAddress transaction])
  /\ outputJSON (fetchAndSaveAddresses (ReplyData items) getTransaction w)
     = Some (newAddressesOf getTransaction items).
Proof.
  intros Hmissing Hin Hsend.
  assert (Hempty : readOutputJSON w = [])
    by (unfold readOutputJSON; now rewrite Hmissing).
  split; [exact Hempty | split].
  - eexists. split.
    + now apply processTransaction_accepted.
    + rewrite saveTransactionData_absent.
      * cbn [outputJSON]. now rewrite readOutputJSON_logEvent, Hempty.
      * now rewrite readOutputJSON_logEvent, Hempty.
  - cbn [fetchAndSaveAddresses]. rewrite saveAddresses_outputJSON, Hempty.
    now rewrite uniqueNewAddressesOf_nil, app_nil_r.
Qed.

(** C10, on the world without address files. *)
Lemma missing_file_reads_as_empty_witness :
  readOutputJSON emptyWorld = []
  /\ (exists w1,
        processTransaction sampleCreateAddress alwaysResolves ["0x60806040"] deployTx
          emptyWorld = Returned w1
        /\ outputJSON w1 = Some [transactionDataOf sampleCreateAddress deployTx])
  /\ outputJSON (fetchAndSaveAddresses (ReplyData [tokenItem; otherItem]) sampleRpc
                   emptyWorld)
     = Some (newAddressesOf sampleRpc [tokenItem; otherItem]).
Proof.
  apply (missing_file_reads_as_empty sampleCreateAddress alwaysResolves
           ["0x60806040"] deployTx [tokenItem; otherItem] sampleRpc emptyWorld);
    reflexivity.
Defined.

(** * Further properties of the code *)

(** ** The loop over a block *)

Lemma forTransactions_app (getCreateAddress : string -> Z -> string)
    (sendResolves : string -> bool) (allowedMethods : list string)
    (before after : list (option Transaction)) (w : World) :
  forTransactions getCreateAddress sendResolves allowedMethods (before ++ after)%list w
  = match forTransactions getCreateAddress sendResolves allowedMethods before w with
    | Returned w1 =>
        forTransactions getCreateAddress sendResolves allowedMethods after w1
    | Thrown w1 => Thrown w1
    end.
Proof.
  revert w. induction before as [|[transaction|] before IH]; intros w;
    cbn [app forTransactions].
  - reflexivity.
  - destruct (processTransaction getCreateAddress sendResolves allowedMethods
                transaction w) as [w1|w1]; [apply IH | reflexivity].
  - apply IH.
Qed.

Lemma forTransactions_rejected (getCreateAddress : string -> Z -> string)
    (sendResolves : string -> bool) (allowedMethods : list string)
    (transactions : list (option Transaction)) (w : World) :
  (forall t, In (Some t) transactions ->
             JS.includes allowedMethods (JS.slice0 10 (data t)) = false) ->
  forTransactions getCreateAddress sendResolves allowedMethods transactions w
  = Returned w.
Proof.
  induction transactions as [|[transaction|] rest IH]; intros Hnone;
    cbn [forTransactions].
  - reflexivity.
  - rewrite processTransaction_rejected by (apply Hnone; now left).
    apply IH. intros t Ht. apply Hnone. now right.
  - apply IH. intros t Ht. apply Hnone. now right.
Qed.

(** X1.  A block none of whose fetched transactions starts with an allowed
    method (so every block when [methods.json] is the empty list, a block
    without transactions, a block [getBlock] did not find) leaves the files
    and the bot as they were, and the handler returns normally. *)
Theorem block_without_allowed_method_changes_nothing
    (getCreateAddress : string -> Z -> string) (sendResolves : string -> bool)
    (block : option (list (option Transaction))) (w : World) :
  (forall transactions t,
      block = Some transactions -> In (Some t) transactions ->
      JS.includes (methodsJSON w) (JS.slice0 10 (data t)) = false) ->
  blockHandler getCreateAddress sendResolves block w = Returned w.
Proof.
  intros Hnone. unfold blockHandler. destruct block as [transactions|].
  - apply forTransactions_rejected. intros t Ht. now apply (Hnone transactions).
  - reflexivity.
Qed.

Lemma block_without_allowed_method_changes_nothing_witness :
  blockHandler sampleCreateAddress alwaysResolves
    (Some [None; Some shortTx; Some (mkTransaction "0xa9059cbb00" 1 sampleSender)])
    emptyWorld = Returned emptyWorld.
Proof.
  apply (block_without_allowed_method_changes_nothing sampleCreateAddress
           alwaysResolves
           (Some [None; Some shortTx;
                  Some (mkTransaction "0xa9059cbb00" 1 sampleSender)])
           emptyWorld).
  intros transactions t Hblock Hin. injection Hblock as <-.
  cbn [In] in Hin. destruct Hin as [Hin | [Hin | [Hin | []]]];
    [discriminate | injection Hin as <- | injection Hin as <-]; reflexivity.
Defined.

(** X2.  When [bot.sendMessage] rejects for an accepted transaction, the
    exception ends the loop over the block there: the message was handed to
    the bot, the transaction is not written to [addresses.json], and the
    transactions after it in the block are not looked at, whatever they
    are. *)
Theorem rejected_send_aborts_block
    (getCreateAddress : string -> Z -> string) (sendResolves : string -> bool)
    (allowedMethods : list string) (before after : list (option Transaction))
    (transaction : Transaction) (w w1 : World) :
  forTransactions getCreateAddress sendResolves allowedMethods before w
  = Returned w1 ->
  JS.includes allowedMethods (JS.slice0 10 (data transaction)) = true ->
  sendResolves (messageOf (transactionDataOf getCreateAddress transaction)) = false ->
  forTransactions getCreateAddress sendResolves allowedMethods
    (before ++ Some transaction :: after)%list w
  = Thrown (logEvent
              (SendMessage (messageOf (transactionDataOf getCreateAddress transaction)))
              w1).
Proof.
  intros Hbefore Hin Hsend. rewrite forTransactions_app, Hbefore.
  cbn [forTransactions]. now rewrite processTransaction_send_fails.
Qed.

Lemma rejected_send_aborts_block_witness :
  forTransactions sampleCreateAddress neverResolves ["0x60806040"]
    ([Some shortTx] ++ Some deployTx
       :: [Some (mkTransaction "0x6080604052" 0 sampleSender)])%list emptyWorld
  = Thrown (logEvent
              (SendMessage (messageOf (transactionDataOf sampleCreateAddress deployTx)))
              emptyWorld).
Proof.
  apply (rejected_send_aborts_block sampleCreateAddress neverResolves
           ["0x60806040"] [Some shortTx]
           [Some (mkTransaction "0x6080604052" 0 sampleSender)]
           deployTx emptyWorld emptyWorld); reflexivity.
Defined.

Lemma forTransactions_keeps_unique (getCreateAddress : string -> Z -> string)
    (sendResolves : string -> bool) (allowedMethods : list string)
    (transactions : list (option Transaction)) (w : World) :
  addressesUnique w ->
  addressesUnique
    (worldOf (forTransactions getCreateAddress sendResolves allowedMethods
                transactions w)).
Proof.
  revert w. induction transactions as [|[transaction|] rest IH]; intros w Hw;
    cbn [forTransactions].
  - exact Hw.
  - pose proof (processTransaction_keeps_unique getCreateAddress sendResolves
                  allowedMethods transaction w Hw) as Hstep.
    destruct (processTransaction getCreateAddress sendResolves allowedMethods
                transaction w) as [w1|w1]; cbn [worldOf] in *.
    + now apply IH.
    + exact Hstep.
  - now apply IH.
Qed.

(** X3.  The block handler keeps the addresses of [addresses.json]
    distinct: whatever the block holds, whether or not a send is rejected on
    the way, a list without a repeated address is still one when the handler
    ends. *)
Theorem block_keeps_addresses_unique
    (getCreateAddress : string -> Z -> string) (sendResolves : string -> bool)
    (block : option (list (option Transaction))) (w : World) :
  addressesUnique w ->
  addressesUnique (worldOf (blockHandler getCreateAddress sendResolves block w)).
Proof.
  intros Hw. unfold blockHandler. destruct block as [transactions|].
  - now apply forTransactions_keeps_unique.
  - exact Hw.
Qed.

Lemma block_keeps_addresses_unique_witness :
  addressesUnique
    (worldOf (blockHandler sampleCreateAddress alwaysResolves
                (Some [Some deployTx; None; Some deployTx]) listedWorld)).
Proof.
  apply (block_keeps_addresses_unique sampleCreateAddress alwaysResolves
           (Some [Some deployTx; None; Some deployTx]) listedWorld).
  unfold addressesUnique. simpl. constructor; [intros [] | constructor].
Defined.

(** X4.  A run of the poller keeps the addresses of [addresses.json]
    distinct when the records it keeps from the response have distinct
    addresses once in lower case. *)
Theorem poll_keeps_addresses_unique (items : list Item)
    (getTransaction : string -> TxLookup) (w : World) :
  NoDup (map (fun item => JS.toLowerCase (item_address item))
             (filter keepsItem items)) ->
  addressesUnique w ->
  addressesUnique (fetchAndSaveAddresses (ReplyData items) getTransaction w).
Proof.
  intros Hnew Hw. cbn [fetchAndSaveAddresses].
  apply saveAddresses_keeps_unique; [|exact Hw].
  unfold newAddressesOf. rewrite map_map. exact Hnew.
Qed.

Lemma poll_keeps_addresses_unique_witness :
  addressesUnique
    (fetchAndSaveAddresses (ReplyData [tokenItem; pairItem; otherItem]) sampleRpc
       listedWorld).
Proof.
  apply (poll_keeps_addresses_unique [tokenItem; pairItem; otherItem] sampleRpc
           listedWorld).
  - simpl. constructor; [intros [H | []]; discriminate|].
    constructor; [intros [] | constructor].
  - unfold addressesUnique. simpl. constructor; [intros [] | constructor].
Defined.

(** ** Any number of overlapping callbacks *)

Lemma Merged_In {A : Type} (ls : list (list A)) (s : list A) :
  Merged ls s -> forall x, In x s -> exists l, In l ls /\ In x l.
Proof.
  induction 1 as [ls Hall | pre post x l s Hm IH]; intros y Hy.
  - contradiction.
  - destruct Hy as [<- | Hy].
    + exists (x :: l). split; [apply in_or_app; right; now left | now left].
    + destruct (IH y Hy) as [l0 [Hl0 Hy0]]. apply in_app_or in Hl0.
      destruct Hl0 as [Hl0 | [<- | Hl0]].
      * exists l0. split; [apply in_or_app; now left | assumption].
      * exists (x :: l). split; [apply in_or_app; right; now left | now right].
      * exists l0. split; [apply in_or_app; right; now right | assumption].
Qed.

(** X5.  However many callbacks of the listener and of the poller overlap,
    and in whatever order Node runs their phases, the addresses of
    [addresses.json] stay distinct, provided no response of the poller
    offers an address twice: no interleaving makes one callback write over
    another's read. *)
Theorem overlapping_callbacks_keep_addresses_unique
    (getCreateAddress : string -> Z -> string) (sendResolves : string -> bool)
    (callbacks : list Callback) (schedule : list Phase) (w : World) :
  Forall (fun t =>
            NoDup (map address (candidatesOf getCreateAddress sendResolves t)))
         callbacks ->
  Merged (map (phasesOf getCreateAddress sendResolves) callbacks) schedule ->
  addressesUnique w ->
  addressesUnique (runPhases schedule w).
Proof.
  intros Hnew Hmerged.
  pose proof (Merged_In _ _ Hmerged) as Hfrom. clear Hmerged.
  revert w. induction schedule as [|phase rest IH]; intros w Hw; [exact Hw|].
  cbn [runPhases fold_left]. apply IH.
  - intros x Hx. apply Hfrom. now right.
  - destruct (Hfrom phase (or_introl eq_refl)) as [l [Hl Hphase]].
    apply in_map_iff in Hl. destruct Hl as [t [<- Ht]].
    rewrite Forall_forall in Hnew.
    now apply (phase_keeps_unique getCreateAddress sendResolves t phase w (Hnew t Ht)).
Qed.

Lemma overlapping_callbacks_keep_addresses_unique_witness :
  let c1 := transactionDataOf sampleCreateAddress deployTx in
  let c2 := mkEntry "0xfffd933a0bc612844eaf0c6fe3e5b8e9b6c1d19c" (Some "0xa9059cbb") in
  addressesUnique
    (runPhases [logEvent (SendMessage (messageOf c1));
                logEvent (SendMessage (messageOf c1));
                saveAddresses [c2];
                saveTransactionData c1;
                saveTransactionData c1] listedWorld).
Proof.
  intros c1 c2.
  apply (overlapping_callbacks_keep_addresses_unique sampleCreateAddress
           alwaysResolves
           [ListenerCallback ["0x60806040"] deployTx;
            PollerCallback [c2];
            ListenerCallback ["0x60806040"] deployTx]).
  - repeat constructor; simpl; intros [].
  - apply (merged_cons [] [[saveAddresses [c2]];
                           [logEvent (SendMessage (messageOf c1));
                            saveTransactionData c1]]
             (logEvent (SendMessage (messageOf c1))) [saveTransactionData c1]).
    apply (merged_cons [[saveTransactionData c1]; [saveAddresses [c2]]] []
             (logEvent (SendMessage (messageOf c1))) [saveTransactionData c1]).
    apply (merged_cons [[saveTransactionData c1]] [[saveTransactionData c1]]
             (saveAddresses [c2]) []).
    apply (merged_cons [] [[]; [saveTransactionData c1]]
             (saveTransactionData c1) []).
    apply (merged_cons [[]; []] [] (saveTransactionData c1) []).
    apply merged_nil. repeat constructor.
  - unfold addressesUnique. simpl. constructor; [intros [] | constructor].
Defined.

(** ** The poller's bookkeeping *)

Lemma lowerChar_idempotent (c : ascii) :
  JS.lowerChar (JS.lowerChar c) = JS.lowerChar c.
Proof.
  destruct c as [[] [] [] [] [] [] [] []]; reflexivity.
Qed.

Lemma lowerChar_LF (c : ascii) :
  Ascii.eqb (JS.lowerChar c) JS.LF = Ascii.eqb c JS.LF.
Proof.
  destruct c as [[] [] [] [] [] [] [] []]; reflexivity.
Qed.

Lemma toLowerCase_idempotent (s : string) :
  JS.toLowerCase (JS.toLowerCase s) = JS.toLowerCase s.
Proof.
  induction s as [|c s IH]; cbn [JS.toLowerCase]; [reflexivity|].
  now rewrite lowerChar_idempotent, IH.
Qed.

Lemma noLF_toLowerCase (s : string) : noLF (JS.toLowerCase s) = noLF s.
Proof.
  induction s as [|c s IH]; cbn [JS.toLowerCase noLF]; [reflexivity|].
  now rewrite lowerChar_LF, IH.
Qed.

Lemma toLowerCase_empty (s : string) :
  String.eqb (JS.toLowerCase s) "" = String.eqb s "".
Proof. destruct s; reflexivity. Qed.

(** X6.  When the two address files list the same addresses in the same
    order and no address of the response holds a line feed, they still do
    after a run of the poller: the lines it puts in front of
    [addresses.txt] are the addresses of the entries it puts in front of
    [addresses.json]. *)
Theorem poll_keeps_mirror_in_step (items : list Item)
    (getTransaction : string -> TxLookup) (w : World) :
  (forall item, In item items -> noLF (item_address item) = true) ->
  txtAddresses w = jsonAddresses w ->
  txtAddresses (fetchAndSaveAddresses (ReplyData items) getTransaction w)
  = jsonAddresses (fetchAndSaveAddresses (ReplyData items) getTransaction w).
Proof.
  intros Hlines Hsame. cbn [fetchAndSaveAddresses].
  apply saveAddresses_keeps_views_equal; [|exact Hsame].
  apply forallb_forall. intros a Ha. apply in_map_iff in Ha.
  destruct Ha as [e [<- He]]. unfold newAddressesOf in He.
  apply in_map_iff in He. destruct He as [item [<- Hitem]].
  apply filter_In in Hitem. destruct Hitem as [Hin Hkeep].
  cbn [address]. unfold isLine. rewrite toLowerCase_empty, noLF_toLowerCase.
  unfold keepsItem, JS.truthy in Hkeep. apply andb_prop in Hkeep.
  destruct Hkeep as [Htruthy _]. rewrite Htruthy. now apply Hlines.
Qed.

Lemma poll_keeps_mirror_in_step_witness :
  txtAddresses
    (fetchAndSaveAddresses (ReplyData [tokenItem; pairItem; otherItem]) sampleRpc
       listedWorld)
  = jsonAddresses
      (fetchAndSaveAddresses (ReplyData [tokenItem; pairItem; otherItem]) sampleRpc
         listedWorld).
Proof.
  apply (poll_keeps_mirror_in_step [tokenItem; pairItem; otherItem] sampleRpc
           listedWorld).
  - intros item [<- | [<- | [<- | []]]]; reflexivity.
  - reflexivity.
Defined.

(** X7.  A run of the poller hands the bot exactly one message for each
    entry it admits, in the order of the response, and none otherwise: the
    messages after the run are the messages before it followed by the
    messages of the admitted entries. *)
Theorem poll_sends_one_message_per_new_entry (reply : ApiReply)
    (getTransaction : string -> TxLookup) (w : World) :
  notifications (fetchAndSaveAddresses reply getTransaction w)
  = (notifications w
       ++ map messageOf (admittedByPoller reply getTransaction w))%list.
Proof.
  unfold notifications.
  destruct reply as [items| |]; cbn [fetchAndSaveAddresses admittedByPoller map];
    try now rewrite app_nil_r.
  rewrite saveAddresses_events. cbn zeta.
  rewrite notificationsOf_app. cbn [notificationsOf].
  rewrite notificationsOf_app, notificationsOf_sendEvents. cbn [notificationsOf].
  f_equal.
  destruct (uniqueNewAddressesOf (readOutputJSON w)
              (newAddressesOf getTransaction items)); cbn [txtEvents notificationsOf];
    now rewrite app_nil_r.
Qed.

(** X8.  A record without an address, or named "Uniswap V2", is left out
    wherever it stands in the response: the run of the poller is the run on
    the response without it. *)
Theorem poll_ignores_excluded_record (before after : list Item) (item : Item)
    (getTransaction : string -> TxLookup) (w : World) :
  item_address item = "" \/ item_name item = "Uniswap V2" ->
  fetchAndSaveAddresses (ReplyData (before ++ item :: after)%list) getTransaction w
  = fetchAndSaveAddresses (ReplyData (before ++ after)%list) getTransaction w.
Proof.
  intros Hout.
  assert (Hkeep : keepsItem item = false).
  { unfold keepsItem, JS.truthy. destruct Hout as [-> | ->].
    - reflexivity.
    - rewrite String.eqb_refl. apply andb_false_r. }
  cbn [fetchAndSaveAddresses]. unfold newAddressesOf.
  rewrite !filter_app. cbn [filter]. now rewrite Hkeep.
Qed.

Lemma poll_ignores_excluded_record_witness :
  fetchAndSaveAddresses (ReplyData ([tokenItem] ++ pairItem :: [otherItem])%list)
    sampleRpc emptyWorld
  = fetchAndSaveAddresses (ReplyData ([tokenItem] ++ [otherItem])%list)
      sampleRpc emptyWorld.
Proof.
  apply (poll_ignores_excluded_record [tokenItem] [otherItem] pairItem sampleRpc
           emptyWorld).
  right. reflexivity.
Defined.

(** X9.  When every record the poller keeps has its address in
    [addresses.json] already (an empty response is one such), the run sends
    nothing and leaves [addresses.txt] alone, but it still writes
    [addresses.json], with the entries it read: a missing file is created
    holding the empty list. *)
Theorem poll_with_nothing_new_rewrites_list (items : list Item)
    (getTransaction : string -> TxLookup) (w : World) :
  (forall item, In item items -> keepsItem item = true ->
                In (JS.toLowerCase (item_address item)) (jsonAddresses w)) ->
  fetchAndSaveAddresses (ReplyData items) getTransaction w
  = mkWorld (methodsJSON w) (Some (readOutputJSON w)) (outputTXT w)
            (events w ++ [ReadJSON; WriteJSON (readOutputJSON w)])%list.
Proof.
  intros Hknown. cbn [fetchAndSaveAddresses]. rewrite saveAddresses_spec. cbn zeta.
  rewrite uniqueNewAddressesOf_covered; [reflexivity|].
  intros a Ha. unfold newAddressesOf in Ha. apply in_map_iff in Ha.
  destruct Ha as [item [<- Hitem]]. apply filter_In in Hitem.
  destruct Hitem as [Hin Hkeep]. cbn [address]. now apply Hknown.
Qed.

Lemma poll_with_nothing_new_rewrites_list_witness :
  fetchAndSaveAddresses (ReplyData [pairItem]) sampleRpc emptyWorld
  = mkWorld (methodsJSON emptyWorld) (Some (readOutputJSON emptyWorld))
            (outputTXT emptyWorld)
            (events emptyWorld ++ [ReadJSON; WriteJSON (readOutputJSON emptyWorld)])%list.
Proof.
  apply (poll_with_nothing_new_rewrites_list [pairItem] sampleRpc emptyWorld).
  intros item [<- | []] Hkeep. discriminate Hkeep.
Defined.

(** ** Method signatures *)

Lemma slice0_length (n : nat) (s : string) :
  String.length (JS.slice0 n s) = Nat.min n (String.length s).
Proof.
  unfold JS.slice0. revert n.
  induction s as [|c s IH]; intros [|n]; cbn [substring String.length Nat.min];
    try reflexivity.
  now rewrite IH.
Qed.

Lemma slice0_prefix (n : nat) (s : string) :
  exists rest, s = JS.slice0 n s ++ rest.
Proof.
  unfold JS.slice0. revert n.
  induction s as [|c s IH]; intros [|n]; cbn [substring].
  - now exists "".
  - now exists "".
  - now exists (String c s).
  - destruct (IH n) as [rest Hrest]. exists rest.
    cbn [String.append]. now rewrite <- Hrest.
Qed.

(** X10.  [extractMethod] never fails: it gives [null] when the node does
    not know the transaction or the lookup throws, and otherwise the start
    of the transaction's input data, ten characters of it or all of it when
    it is shorter. *)
Theorem extractMethod_gives_prefix_or_null (getTransaction : string -> TxLookup)
    (transactionHash : string) :
  match getTransaction transactionHash with
  | TxFound transaction =>
      exists methodHash rest,
        extractMethod getTransaction transactionHash = Some methodHash
        /\ data transaction = methodHash ++ rest
        /\ String.length methodHash = Nat.min 10 (String.length (data transaction))
  | TxNull => extractMethod getTransaction transactionHash = None
  | TxThrows => extractMethod getTransaction transactionHash = None
  end.
Proof.
  unfold extractMethod.
  destruct (getTransaction transactionHash) as [transaction| |]; try reflexivity.
  destruct (slice0_prefix 10 (data transaction)) as [rest Hrest].
  exists (JS.slice0 10 (data transaction)), rest.
  split; [reflexivity | split; [exact Hrest | apply slice0_length]].
Qed.

(** ** Lower case, and the two paths together *)

Lemma Forall_lowercase_app (l1 l2 : list string) :
  Forall (fun a => JS.toLowerCase a = a) l1 ->
  Forall (fun a => JS.toLowerCase a = a) l2 ->
  Forall (fun a => JS.toLowerCase a = a) (l1 ++ l2)%list.
Proof.
  intros H1 H2. apply Forall_forall. intros a Ha. apply in_app_or in Ha.
  rewrite Forall_forall in H1, H2. destruct Ha; auto.
Qed.

Lemma forTransactions_keeps_lowercase (getCreateAddress : string -> Z -> string)
    (sendResolves : string -> bool) (allowedMethods : list string)
    (transactions : list (option Transaction)) (w : World) :
  addressesLowercase w ->
  addressesLowercase
    (worldOf (forTransactions getCreateAddress sendResolves allowedMethods
                transactions w)).
Proof.
  revert w. induction transactions as [|[transaction|] rest IH]; intros w Hw;
    cbn [forTransactions].
  - exact Hw.
  - assert (Hstep : addressesLowercase
                      (worldOf (processTransaction getCreateAddress sendResolves
                                  allowedMethods transaction w))).
    { unfold addressesLowercase, jsonAddresses.
      rewrite processTransaction_readOutputJSON, map_app.
      apply Forall_lowercase_app; [|exact Hw].
      unfold admittedByListener.
      destruct (JS.includes allowedMethods (JS.slice0 10 (data transaction))
                && sendResolves
                     (messageOf (transactionDataOf getCreateAddress transaction))
                && negb (someAddress (readOutputJSON w)
                           (address (transactionDataOf getCreateAddress transaction))));
        cbn [map]; constructor; [|constructor].
      cbn [transactionDataOf address]. apply toLowerCase_idempotent. }
    destruct (processTransaction getCreateAddress sendResolves allowedMethods
                transaction w) as [w1|w1]; cbn [worldOf] in *.
    + now apply IH.
    + exact Hstep.
  - now apply IH.
Qed.

(** X11.  Both paths store addresses in lower case only: when every address
    of [addresses.json] is in lower case, it still is after the block handler
    and after a run of the poller, whatever the spelling the library or the
    API used.  (The comparison with the stored addresses is by [===], so it
    is this that makes it blind to letter case.) *)
Theorem stored_addresses_stay_lowercase
    (getCreateAddress : string -> Z -> string) (sendResolves : string -> bool)
    (block : option (list (option Transaction)))
    (reply : ApiReply) (getTransaction : string -> TxLookup) (w : World) :
  addressesLowercase w ->
  addressesLowercase (worldOf (blockHandler getCreateAddress sendResolves block w))
  /\ addressesLowercase (fetchAndSaveAddresses reply getTransaction w).
Proof.
  intros Hw. split.
  - unfold blockHandler. destruct block as [transactions|]; [|exact Hw].
    now apply forTransactions_keeps_lowercase.
  - unfold addressesLowercase, jsonAddresses.
    rewrite fetchAndSaveAddresses_readOutputJSON, map_app.
    apply Forall_lowercase_app; [|exact Hw].
    apply Forall_forall. intros a Ha. apply in_map_iff in Ha.
    destruct Ha as [e [<- He]].
    destruct reply as [items| |]; cbn [admittedByPoller] in He; try contradiction.
    apply uniqueNewAddressesOf_In in He. destruct He as [He _].
    unfold newAddressesOf in He. apply in_map_iff in He.
    destruct He as [item [<- _]]. cbn [address]. apply toLowerCase_idempotent.
Qed.

Lemma stored_addresses_stay_lowercase_witness :
  addressesLowercase
    (worldOf (blockHandler sampleCreateAddress alwaysResolves
                (Some [Some deployTx]) listedWorld))
  /\ addressesLowercase
       (fetchAndSaveAddresses (ReplyData [tokenItem; otherItem]) sampleRpc
          listedWorld).
Proof.
  apply (stored_addresses_stay_lowercase sampleCreateAddress alwaysResolves
           (Some [Some deployTx]) (ReplyData [tokenItem; otherItem]) sampleRpc
           listedWorld).
  unfold addressesLowercase. simpl. constructor; [reflexivity | constructor].
Defined.

(** X12.  The two paths see each other's entries, whatever the letter case
    of the address the API gives.  After a run of the poller on a response
    holding a kept record for the contract a transaction deploys, the
    listener does not admit that transaction; and after the listener has
    admitted an accepted transaction, a run of the poller admits no entry
    with the address of its contract. *)
Theorem paths_see_each_others_entries
    (getCreateAddress : string -> Z -> string) (sendResolves : string -> bool)
    (allowedMethods : list string) (transaction : Transaction)
    (items : list Item) (getTransaction : string -> TxLookup) (item : Item)
    (w : World) :
  In item items ->
  keepsItem item = true ->
  JS.toLowerCase (item_address item)
  = JS.toLowerCase (getCreateAddress (from transaction) (nonce transaction)) ->
  JS.includes allowedMethods (JS.slice0 10 (data transaction)) = true ->
  sendResolves (messageOf (transactionDataOf getCreateAddress transaction)) = true ->
  let afterPoll := fetchAndSaveAddresses (ReplyData items) getTransaction w in
  let afterTransaction :=
    worldOf (processTransaction getCreateAddress sendResolves allowedMethods
               transaction w) in
  admittedByListener getCreateAddress sendResolves allowedMethods transaction
    afterPoll = []
  /\ forall e,
       In e (admittedByPoller (ReplyData items) getTransaction afterTransaction) ->
       address e <> address (transactionDataOf getCreateAddress transaction).
Proof.
  intros Hin Hkeep Hsame Haccepted Hsend afterPoll afterTransaction. split.
  - unfold admittedByListener.
    assert (Hlisted : someAddress (readOutputJSON afterPoll)
                        (address (transactionDataOf getCreateAddress transaction))
                      = true).
    { apply someAddress_true. cbn [transactionDataOf address]. rewrite <- Hsame.
      apply (saveAddresses_covers (newAddressesOf getTransaction items) w
               (mkEntry (JS.toLowerCase (item_address item))
                        (extractMethod getTransaction
                           (creating_transaction_hash item)))).
      now apply newAddressesOf_In. }
    rewrite Hlisted. now rewrite andb_false_r.
  - intros e He Heq. cbn [admittedByPoller] in He.
    apply uniqueNewAddressesOf_In in He. destruct He as [_ Habsent].
    apply someAddress_false in Habsent. apply Habsent. rewrite Heq.
    unfold afterTransaction.
    rewrite processTransaction_readOutputJSON, map_app. unfold admittedByListener.
    rewrite Haccepted, Hsend. cbn [andb].
    destruct (someAddress (readOutputJSON w)
                (address (transactionDataOf getCreateAddress transaction))) eqn:E;
      cbn [negb map app].
    + now apply someAddress_true.
    + now left.
Qed.

Lemma paths_see_each_others_entries_witness :
  let afterPoll :=
    fetchAndSaveAddresses (ReplyData [otherItem; tokenItem]) sampleRpc emptyWorld in
  let afterTransaction :=
    worldOf (processTransaction sampleCreateAddress alwaysResolves ["0x60806040"]
               deployTx emptyWorld) in
  admittedByListener sampleCreateAddress alwaysResolves ["0x60806040"] deployTx
    afterPoll = []
  /\ forall e,
       In e (admittedByPoller (ReplyData [otherItem; tokenItem]) sampleRpc
               afterTransaction) ->
       address e <> address (transactionDataOf sampleCreateAddress deployTx).
Proof.
  apply (paths_see_each_others_entries sampleCreateAddress alwaysResolves
           ["0x60806040"] deployTx [otherItem; tokenItem] sampleRpc tokenItem
           emptyWorld).
  - simpl. right. now left.
  - reflexivity.
  - reflexivity.
  - reflexivity.
  - reflexivity.
Defined.
